(** * decode_cap: decoding a CHERIoT compressed capability

    A shallow embedding of [scripts/decode_cap.py] (lines 15-94: everything
    after the two hexadecimal arguments have been turned into the integers
    [addr] and [meta]) and the properties of its permission decoder, bounds
    decompressor and object-type classification.

    Python integers are unbounded, so every variable is a [Z]; [>>], [<<],
    [&] are [Z.shiftr], [Z.shiftl], [Z.land], which agree with Python on
    negative operands too (floor shift, two's complement masks).  The script
    is straight-line module-level code: its final global variables and the
    lines it printed are the result of a run. *)

From Stdlib Require Import ZArith Lia Bool List Ascii String.
From stdpp Require Import base gmap strings.
From Stdlib Require Import NArith Sorted Permutation.

Local Open Scope string_scope.
Local Open Scope Z_scope.

(** ** Exceptions

    The operations of the script that can raise are a shift by a computed
    amount (Python raises [ValueError: negative shift count]) and a dict
    subscript (raises [KeyError]).  They are threaded through an error
    monad. *)

Module Py.

Inductive exn : Type :=
| ValueError (msg : string)
| KeyError (key : Z).

Inductive result (A : Type) : Type :=
| Ok (a : A)
| Raise (e : exn).
Arguments Ok {A} a.
Arguments Raise {A} e.

Definition bind {A B : Type} (m : result A) (k : A -> result B) : result B :=
  match m with
  | Ok a => k a
  | Raise e => Raise e
  end.

Notation "'let!' x ':=' m 'in' k" := (bind m (fun x => k))
  (at level 10, x name, m at level 100, k at level 200).

(** [a >> n] and [a << n] for a computed [n]. *)
Definition rshift (a n : Z) : result Z :=
  if n <? 0 then Raise (ValueError "negative shift count") else Ok (Z.shiftr a n).

Definition lshift (a n : Z) : result Z :=
  if n <? 0 then Raise (ValueError "negative shift count") else Ok (Z.shiftl a n).

(** [d[k]] and [k in d] for a dict with integer keys. *)
Definition getitem (d : gmap Z string) (k : Z) : result string :=
  match d !! k with
  | Some s => Ok s
  | None => Raise (KeyError k)
  end.

Definition contains (d : gmap Z string) (k : Z) : bool :=
  match d !! k with
  | Some _ => true
  | None => false
  end.

(** Truth value of an integer in a condition. *)
Definition truthy (z : Z) : bool := negb (z =? 0).

(** *** Integer formatting: [str(n)], and the format specs [b], [x] with a
    width, zero-padded ([08x]: the sign comes before the padding) or
    space-padded ([6b]: right-aligned). *)

Definition digit_char (d : Z) : ascii :=
  match d with
  | 0 => "0" | 1 => "1" | 2 => "2" | 3 => "3" | 4 => "4" | 5 => "5"
  | 6 => "6" | 7 => "7" | 8 => "8" | 9 => "9" | 10 => "a" | 11 => "b"
  | 12 => "c" | 13 => "d" | 14 => "e" | _ => "f"
  end%char.

Fixpoint digits_aux (fuel : nat) (radix n : Z) (acc : string) : string :=
  match fuel with
  | O => acc
  | S fuel' =>
      let acc' := String (digit_char (n mod radix)) acc in
      if n / radix =? 0 then acc' else digits_aux fuel' radix (n / radix) acc'
  end.

(** The digits of [n >= 0]; [log2 n + 1] steps are enough for any radix
    from 2 on. *)
Definition digits (radix n : Z) : string :=
  digits_aux (S (Z.to_nat (Z.log2 n))) radix n "".

Definition sign (n : Z) : string := if n <? 0 then "-" else "".

Fixpoint fill (k : nat) (c : ascii) : string :=
  match k with
  | O => ""
  | S k' => String c (fill k' c)
  end.

Definition pad_left (c : ascii) (width : nat) (s : string) : string :=
  fill (width - String.length s) c +:+ s.

Definition str (n : Z) : string := sign n +:+ digits 10 (Z.abs n).

Definition format_zero (width : nat) (radix n : Z) : string :=
  sign n +:+ pad_left "0" (width - String.length (sign n)) (digits radix (Z.abs n)).

Definition format_space (width : nat) (radix n : Z) : string :=
  pad_left " " width (sign n +:+ digits radix (Z.abs n)).

End Py.

Import Py.

(** ** The script *)

Module DecodeCap.

(** *** Field extraction (lines 15-21).  The shift amounts are non-negative
    literals, for which [>>] cannot raise. *)

Record fields : Type := mk_fields {
  B : Z;
  T : Z;
  E : Z;
  otype : Z;
  perms : Z;
  R : Z;
  v : Z
}.

Definition extract (meta : Z) : fields :=
  {| B := Z.land meta 0x1ff;
     T := Z.land (Z.shiftr meta 9) 0x1ff;
     E := Z.land (Z.shiftr meta 18) 0xf;
     otype := Z.land (Z.shiftr meta 22) 0x7;
     perms := Z.land (Z.shiftr meta 25) 0x3f;
     R := Z.land (Z.shiftr meta 31) 0x1;
     v := Z.land (Z.shiftr meta 32) 0x1 |}.

(** Line 22. *)
Definition raw_line (f : fields) (addr : Z) : string :=
  "raw: v=" +:+ str (v f) +:+ " R=" +:+ str (R f)
  +:+ " p=" +:+ format_space 6 2 (perms f)
  +:+ " otype=" +:+ str (otype f) +:+ " E=" +:+ str (E f)
  +:+ " T=0x" +:+ format_zero 3 16 (T f)
  +:+ " B=0x" +:+ format_zero 3 16 (B f)
  +:+ " addr=0x" +:+ format_zero 8 16 addr.

(** *** Permission decoding (lines 26-48).  The flags are integers: line 27
    sets all of them (but [GL]) to 0, and one branch of the [if]/[elif]
    chain at most overwrites some.  The guard of the last branch is written
    [not p4 and not 3] in the source, and is kept so. *)

Record permset : Type := mk_permset {
  GL : Z; LD : Z; SD : Z; MC : Z; SL : Z; LM : Z; LG : Z;
  SR : Z; EX : Z; U0 : Z; SE : Z; US : Z
}.

(** [(perms >> i) & 1] *)
Definition pbit (perms i : Z) : Z := Z.land (Z.shiftr perms i) 1.

Definition decode_perms (perms : Z) : permset :=
  let gl := pbit perms 5 in
  let p4 := pbit perms 4 in
  let p3 := pbit perms 3 in
  let p2 := pbit perms 2 in
  let p1 := pbit perms 1 in
  let p0 := pbit perms 0 in
  if truthy p4 && truthy p3 then
    {| GL := gl; LD := 1; SD := 1; MC := 1; SL := p2; LM := p1; LG := p0;
       SR := 0; EX := 0; U0 := 0; SE := 0; US := 0 |}
  else if truthy p4 && negb (truthy p3) && truthy p2 then
    {| GL := gl; LD := 1; SD := 0; MC := 1; SL := 0; LM := p1; LG := p0;
       SR := 0; EX := 0; U0 := 0; SE := 0; US := 0 |}
  else if truthy p4 && negb (truthy p3) && negb (truthy p2)
          && negb (truthy p1) && negb (truthy p0) then
    {| GL := gl; LD := 0; SD := 1; MC := 1; SL := 0; LM := 0; LG := 0;
       SR := 0; EX := 0; U0 := 0; SE := 0; US := 0 |}
  else if truthy p4 && negb (truthy p3) && negb (truthy p2) then
    {| GL := gl; LD := p1; SD := p0; MC := 0; SL := 0; LM := 0; LG := 0;
       SR := 0; EX := 0; U0 := 0; SE := 0; US := 0 |}
  else if negb (truthy p4) && truthy p3 then
    {| GL := gl; LD := 1; SD := 0; MC := 1; SL := 0; LM := p1; LG := p0;
       SR := p2; EX := 1; U0 := 0; SE := 0; US := 0 |}
  else if negb (truthy p4) && negb (truthy 3) then
    {| GL := gl; LD := 0; SD := 0; MC := 0; SL := 0; LM := 0; LG := 0;
       SR := 0; EX := 0; U0 := p2; SE := p1; US := p0 |}
  else
    {| GL := gl; LD := 0; SD := 0; MC := 0; SL := 0; LM := 0; LG := 0;
       SR := 0; EX := 0; U0 := 0; SE := 0; US := 0 |}.

(** *** The permission string (lines 50-65) *)

Definition pc (p : Z) (c : string) : string := if truthy p then c else "-".

Definition perm_str_of (p : permset) : string :=
  pc (GL p) "G" +:+ " "
  +:+ pc (LD p) "R" +:+ pc (SD p) "W" +:+ pc (MC p) "c"
  +:+ pc (LG p) "g" +:+ pc (LM p) "m" +:+ " "
  +:+ pc (EX p) "X" +:+ pc (SR p) "a" +:+ " "
  +:+ pc (SE p) "S" +:+ pc (US p) "U" +:+ pc (U0 p) "0".

(** *** Object type and exponent (lines 67-69) *)

Definition otype_shift (otype ex : Z) : Z :=
  if negb (otype =? 0) && negb (truthy ex) then otype + 8 else otype.

Definition exponent (E : Z) : Z := if negb (E =? 15) then E else 24.

(** *** Bounds (lines 71-80).  The two shifts by [e] and [e+9] are by a
    computed amount. *)

Record boundsvars : Type := mk_boundsvars {
  a_top : Z; a_mid : Z; a_hi : Z; t_hi : Z; c_b : Z; c_t : Z;
  a_top_base : Z; a_top_top : Z; base : Z; top : Z
}.

Definition bounds (addr e T B : Z) : result boundsvars :=
  let! a_top := rshift addr (e + 9) in
  let! a_shr := rshift addr e in
  let a_mid := Z.land a_shr 0x1ff in
  let a_hi := if a_mid <? B then 1 else 0 in
  let t_hi := if T <? B then 1 else 0 in
  let c_b := - a_hi in
  let c_t := t_hi - a_hi in
  let a_top_base := a_top + c_b in
  let a_top_top := a_top + c_t in
  let! base := lshift (Z.shiftl a_top_base 9 + B) e in
  let! top := lshift (Z.shiftl a_top_top 9 + T) e in
  Ok (mk_boundsvars a_top a_mid a_hi t_hi c_b c_t a_top_base a_top_top base top).

(** Line 81. *)
Definition bounds_line (b : boundsvars) : string :=
  format_zero 8 16 (base b) +:+ "-" +:+ format_zero 9 16 (top b)
  +:+ " l:" +:+ format_zero 9 16 (top b - base b).

(** *** Object-type classification (lines 83-91) *)

Definition otypes : gmap Z string :=
  list_to_map
    [ (0, "unsealed");
      (1, "IRQ inherit forward sentry");
      (2, "IRQ disable forward sentry");
      (3, "IRQ enable forward sentry");
      (4, "IRQ disable return sentry");
      (5, "IRQ enable return sentry") ].

Definition otype_str_of (otype : Z) : result string :=
  let! label :=
    (if contains otypes otype then
       let! name := getitem otypes otype in Ok (" (" +:+ name +:+ ")")
     else Ok "") in
  Ok (str otype +:+ label).

(** *** The whole run.  [g_otype] is [otype] after line 68; the extracted
    field stays available as [otype (g_fields g)]. *)

Record globals : Type := mk_globals {
  g_fields : fields;
  g_perms : permset;
  perm_str : string;
  g_otype : Z;
  e : Z;
  g_bounds : boundsvars;
  otype_str : string;
  stdout : list string
}.

Definition reserved_warning : string := "Reserved bit set!".

Definition run (addr meta : Z) : result globals :=
  let f := extract meta in
  let out := [raw_line f addr] in
  let out := if negb (R f =? 0) then (out ++ [reserved_warning])%list else out in
  let p := decode_perms (perms f) in
  let perm_str := perm_str_of p in
  let otype' := otype_shift (otype f) (EX p) in
  let e := exponent (E f) in
  let! b := bounds addr e (T f) (B f) in
  let out := (out ++ [bounds_line b])%list in
  let! otype_str := otype_str_of otype' in
  let out := (out ++ ["otype=" +:+ otype_str; perm_str])%list in
  Ok (mk_globals f p perm_str otype' e b otype_str out).

End DecodeCap.

Import DecodeCap.

(** ** The command line of the script (lines 4-14)

    The argument is either [addr+metadata] or one hexadecimal word whose
    last eight characters are the address.  The builtin [int(s, 16)] is a
    parameter of the model; tuple unpacking of a list that has not two
    elements raises [ValueError]. *)

Module DecodeCapArgs.

(** [c in s] for a one-character [c]. *)
Fixpoint has_char (c : ascii) (s : string) : bool :=
  match s with
  | "" => false
  | String d s' => Ascii.eqb d c || has_char c s'
  end.

(** [s.split(c)] for a one-character separator. *)
Fixpoint str_split (c : ascii) (s : string) : list string :=
  match s with
  | "" => [""]
  | String d s' =>
      if Ascii.eqb d c then "" :: str_split c s'
      else match str_split c s' with
           | piece :: rest => String d piece :: rest
           | [] => [String d ""]
           end
  end.

(** [s[:n]] and [s[n:]] for [n >= 0]. *)
Fixpoint str_take (n : nat) (s : string) : string :=
  match n, s with
  | S n', String c s' => String c (str_take n' s')
  | _, _ => ""
  end.

Fixpoint str_drop (n : nat) (s : string) : string :=
  match n, s with
  | S n', String _ s' => str_drop n' s'
  | _, _ => s
  end.

(** [s[-n:]] and [s[:-n]] for [n > 0]: the index counts from the end and
    is clamped at the start of the string. *)
Definition last_chars (n : nat) (s : string) : string :=
  str_drop (String.length s - n) s.

Definition but_last_chars (n : nat) (s : string) : string :=
  str_take (String.length s - n) s.

(** Lines 8-12: the pair [(addr_hex, meta_hex)]. *)
Definition split_arg (cap_hex : string) : result (string * string) :=
  if has_char "+" cap_hex then
    match str_split "+" cap_hex with
    | [addr_hex; meta_hex] => Ok (addr_hex, meta_hex)
    | [] | [_] =>
        Raise (ValueError "not enough values to unpack (expected 2, got 1)")
    | _ => Raise (ValueError "too many values to unpack (expected 2)")
    end
  else Ok (last_chars 8 cap_hex, but_last_chars 8 cap_hex).

Section Main.

(** The builtin [int(s, 16)]. *)
Variable int16 : string -> result Z.

(** Lines 4-94 on the argument [cap_hex = sys.argv[1]]. *)
Definition main (cap_hex : string) : result globals :=
  let! parts := split_arg cap_hex in
  let! addr := int16 (fst parts) in
  let! meta := int16 (snd parts) in
  run addr meta.

End Main.

(** The fragment of [int(s, 16)] on non-empty strings of hexadecimal
    digits (the builtin also takes a sign, a [0x] prefix, blanks and
    underscores); it instantiates the parameter in the examples. *)
Definition hex_digit (c : ascii) : option Z :=
  let code := Z.of_N (N_of_ascii c) in
  if (48 <=? code) && (code <=? 57) then Some (code - 48)
  else if (97 <=? code) && (code <=? 102) then Some (code - 87)
  else if (65 <=? code) && (code <=? 70) then Some (code - 55)
  else None.

Fixpoint hex_acc (acc : Z) (s : string) : result Z :=
  match s with
  | "" => Ok acc
  | String c s' =>
      match hex_digit c with
      | Some d => hex_acc (16 * acc + d) s'
      | None => Raise (ValueError "invalid literal for int() with base 16")
      end
  end.

Definition plain_hex (s : string) : result Z :=
  match s with
  | "" => Raise (ValueError "invalid literal for int() with base 16")
  | _ => hex_acc 0 s
  end.

End DecodeCapArgs.

Import DecodeCapArgs.

(** ** Vocabulary of the statements *)

Module Props.

(** The classification table in words: the label printed after the numeric
    object type. *)
Definition otype_label (o : Z) : string :=
  match o with
  | 0 => " (unsealed)"
  | 1 => " (IRQ inherit forward sentry)"
  | 2 => " (IRQ disable forward sentry)"
  | 3 => " (IRQ enable forward sentry)"
  | 4 => " (IRQ disable return sentry)"
  | 5 => " (IRQ enable return sentry)"
  | _ => ""
  end.

(** Two permission sets that agree on every flag but [GL]. *)
Definition agree_but_GL (p q : permset) : Prop :=
  LD p = LD q /\ SD p = SD q /\ MC p = MC q /\ SL p = SL q /\ LM p = LM q
  /\ LG p = LG q /\ SR p = SR q /\ EX p = EX q /\ U0 p = U0 q
  /\ SE p = SE q /\ US p = US q.

(** The permission set with no flag but [gl]. *)
Definition only_GL (gl : Z) : permset :=
  {| GL := gl; LD := 0; SD := 0; MC := 0; SL := 0; LM := 0; LG := 0;
     SR := 0; EX := 0; U0 := 0; SE := 0; US := 0 |}.

End Props.

Import Props.

(** ** The layout of the metadata word, read backwards

    The script only decodes.  [pack] is the word that has the given values
    in the bit positions lines 15-21 read, and nothing above bit 32. *)

Module Layout.

Definition pack (f : fields) : Z :=
  B f + T f * 2 ^ 9 + E f * 2 ^ 18 + otype f * 2 ^ 22 + perms f * 2 ^ 25
  + R f * 2 ^ 31 + v f * 2 ^ 32.

Definition in_range (f : fields) : Prop :=
  0 <= B f < 2 ^ 9 /\ 0 <= T f < 2 ^ 9 /\ 0 <= E f < 2 ^ 4
  /\ 0 <= otype f < 2 ^ 3 /\ 0 <= perms f < 2 ^ 6 /\ 0 <= R f < 2
  /\ 0 <= v f < 2.

End Layout.

Import Layout.

(** ** annotate_trace.py: the symbol table and its lookup

    [get_names] (lines 14-46) from the point where the lines of the nm file
    have been parsed into [(address, name)] pairs, and the lookup that
    [annotate_trace] (lines 48-69) does for the program counter of a trace
    line.  Addresses come from [int(m.group(1), 16)] on a run of hexadecimal
    digits, so they are natural numbers. *)

Module AnnotateTrace.

Notation symbol := (N * string)%type (only parsing).

(** [names.sort(key=lambda x: x[0])] (line 32).  Python's sort is stable;
    the stable sort of a list is unique, and is computed here by insertion
    from the left, past the entries whose address is not greater. *)
Fixpoint insert_by_addr (x : symbol) (l : list symbol) : list symbol :=
  match l with
  | [] => [x]
  | y :: l' =>
      if (fst x <? fst y)%N then x :: y :: l' else y :: insert_by_addr x l'
  end.

Definition sort_by_addr (names : list symbol) : list symbol :=
  fold_left (fun acc x => insert_by_addr x acc) names [].

(** The loop of lines 35-44, with its three variables. *)
Fixpoint merge_loop (names : list symbol) (prev_addr : N) (prev_name : string)
    (unique_names : list symbol) : list symbol :=
  match names with
  | [] => (unique_names ++ [(prev_addr, prev_name)])%list
  | (addr, name) :: rest =>
      if negb (addr =? prev_addr)%N
      then merge_loop rest addr name
             (unique_names ++ [(prev_addr, prev_name)])%list
      else merge_loop rest prev_addr (prev_name +:+ "/" +:+ name) unique_names
  end.

(** Lines 31-46: what [get_names] returns for the parsed entries. *)
Definition get_names (names : list symbol) : list symbol :=
  merge_loop (sort_by_addr names) 0%N "null" [].

(** [bisect.bisect_right(a, x)]: the halving loop of the library, which
    ends within [len(a)] steps since [hi - lo] shrinks at each. *)
Fixpoint bisect_loop (fuel : nat) (a : list N) (x : N) (lo hi : nat) : nat :=
  match fuel with
  | O => lo
  | S fuel' =>
      if (lo <? hi)%nat then
        let mid := ((lo + hi) / 2)%nat in
        if (x <? nth mid a 0%N)%N then bisect_loop fuel' a x lo mid
        else bisect_loop fuel' a x (mid + 1)%nat hi
      else lo
  end.

Definition bisect_right (a : list N) (x : N) : nat :=
  bisect_loop (length a) a x 0%nat (length a).

(** What the lookup can raise: unpacking [list(zip( *names))] when there is
    no name, and a tuple index out of range. *)
Inductive outcome (A : Type) : Type :=
| Done (a : A)
| UnpackError
| IndexError.
Arguments Done {A} a.
Arguments UnpackError {A}.
Arguments IndexError {A}.

(** [(xs, ys) = list(zip( *pairs))] *)
Definition unzip (pairs : list symbol) : outcome (list N * list string) :=
  match pairs with
  | [] => UnpackError
  | _ => Done (map fst pairs, map snd pairs)
  end.

(** [t[i]] on a tuple: a negative index counts from the end. *)
Definition item {A : Type} (t : list A) (i : Z) : outcome A :=
  let j := if i <? 0 then i + Z.of_nat (length t) else i in
  if j <? 0 then IndexError
  else match nth_error t (Z.to_nat j) with
       | Some x => Done x
       | None => IndexError
       end.

(** [s.startswith('.')] *)
Definition starts_with_dot (s : string) : bool :=
  match s with
  | String c _ => Ascii.eqb c "."
  | "" => false
  end.

(** Lines 50-52 and 61-66: the annotation for the program counter [addr],
    given the table [names]. *)
Definition symbol_at (names : list symbol) (addr : N) : outcome string :=
  let non_local_names :=
    List.filter (fun x => negb (starts_with_dot (snd x))) names in
  match unzip names with
  | Done (addresses, syms) =>
      match unzip non_local_names with
      | Done (non_local_addresses, non_local_syms) =>
          let i := Z.of_nat (bisect_right addresses addr) - 1 in
          match item syms i with
          | Done sym =>
              let i2 :=
                Z.of_nat (bisect_right non_local_addresses addr) - 1 in
              match item non_local_syms i2 with
              | Done non_local_sym =>
                  Done (if negb (String.eqb non_local_sym sym)
                        then non_local_sym +:+ " / " +:+ sym
                        else sym)
              | UnpackError => UnpackError
              | IndexError => IndexError
              end
          | UnpackError => UnpackError
          | IndexError => IndexError
          end
      | UnpackError => UnpackError
      | IndexError => IndexError
      end
  | UnpackError => UnpackError
  | IndexError => IndexError
  end.

End AnnotateTrace.

Import AnnotateTrace.

(** ** cgviz.py: the two string helpers (lines 21-25) *)

Module Cgviz.

(** [s.replace(c, by)] for a one-character [c]. *)
Fixpoint replace_char (c : ascii) (by_ : string) (s : string) : string :=
  match s with
  | "" => ""
  | String d s' =>
      if Ascii.eqb d c then by_ +:+ replace_char c by_ s'
      else String d (replace_char c by_ s')
  end.

Definition escape_export_symbol (s : string) : string :=
  replace_char "." "DOT" (replace_char "$" "DOLLAR" s).

(** [s[0:k]] for any integer [k]: a negative [k] counts from the end. *)
Definition slice_to (s : string) (k : Z) : string :=
  let len := Z.of_nat (String.length s) in
  let stop := if k <? 0 then Z.max 0 (len + k) else Z.min k len in
  str_take (Z.to_nat stop) s.

Definition abbreviate (s : string) (length : Z) : string :=
  if Z.of_nat (String.length s) <? length then s
  else slice_to s (length - 3) +:+ "...".

End Cgviz.

Import Cgviz.

(** ** Vocabulary for the symbol table *)

Module TableProps.

(** Order of two entries by address. *)
Definition addr_le (x y : symbol) : Prop := (fst x <= fst y)%N.

(** [(a, s)] is the entry of [table] with the greatest address not above
    [pc]. *)
Definition floor_entry (table : list symbol) (pc : N) (a : N) (s : string)
    : Prop :=
  In (a, s) table /\ (a <= pc)%N
  /\ forall x, In x table -> (fst x <= pc)%N -> (fst x <= a)%N.

(** The names of [table] that do not start with a dot. *)
Definition non_local (table : list symbol) : list symbol :=
  List.filter (fun x => negb (starts_with_dot (snd x))) table.

End TableProps.

Import TableProps.

(** ** The formatting helpers on the values the script prints *)

Example str_10 : str 10 = "10". Proof. reflexivity. Qed.
Example fmt_neg : format_zero 8 16 (-511) = "-00001ff". Proof. reflexivity. Qed.
Example fmt_b : format_space 6 2 24 = " 11000". Proof. reflexivity. Qed.
Example fmt_top : format_zero 9 16 (2^32) = "100000000". Proof. reflexivity. Qed.

(** A run with the reserved bit set and an executable sentry:
    [decode_cap.py 00000200+1908a0403]. *)
Example run_reserved_sentry :
  option_map stdout
    (match run 0x200 0x1908a0403 with Ok g => Some g | Raise _ => None end)
  = Some [ "raw: v=1 R=1 p=  1000 otype=2 E=2 T=0x102 B=0x003 addr=0x00000200";
           "Reserved bit set!";
           "0000000c-000000408 l:0000003fc";
           "otype=2 (IRQ disable forward sentry)";
           "- R-c-- X- ---" ].
Proof. vm_compute. reflexivity. Qed.




Lemma append_empty_r (s : string) : s +:+ "" = s.
Proof.
  induction s as [| c s IH]; [reflexivity |].
  change (String c (s +:+ "") = String c s). rewrite IH. reflexivity.
Qed.

Lemma Ok_inj {A : Type} (a b : A) : Ok a = Ok b -> a = b.
Proof. intros H. inversion H. reflexivity. Qed.

(** ** Bit slices

    Every field of the metadata word has the shape [(x >> k) & (2^w - 1)]. *)

Section Slices.

Lemma land_ones_range (x w : Z) : 0 <= w -> 0 <= Z.land x (Z.ones w) < 2 ^ w.
Proof.
  intros Hw. rewrite Z.land_ones by lia.
  apply Z.mod_pos_bound, Z.pow_pos_nonneg; lia.
Qed.

Lemma slice_testbit (x k w n : Z) :
  0 <= w -> 0 <= n ->
  Z.testbit (Z.land (Z.shiftr x k) (Z.ones w)) n
  = Z.testbit x (n + k) && (n <? w).
Proof.
  intros Hw Hn. rewrite Z.land_spec, Z.shiftr_spec by lia.
  destruct (Z.ltb_spec n w) as [Hlt | Hge].
  - rewrite Z.ones_spec_low by lia. reflexivity.
  - rewrite Z.ones_spec_high by lia. reflexivity.
Qed.

(** A slice only depends on the bits it covers. *)
Lemma slice_ext (x y k w : Z) :
  0 <= w ->
  (forall i, k <= i < k + w -> Z.testbit x i = Z.testbit y i) ->
  Z.land (Z.shiftr x k) (Z.ones w) = Z.land (Z.shiftr y k) (Z.ones w).
Proof.
  intros Hw H. apply Z.bits_inj'. intros n Hn.
  rewrite !slice_testbit by lia.
  destruct (Z.ltb_spec n w) as [Hlt | Hge].
  - rewrite H by lia. reflexivity.
  - rewrite !andb_false_r. reflexivity.
Qed.

(** Gluing a 9-bit mantissa under shifted high bits: [+] (as the script
    writes it) and bitwise or coincide. *)
Lemma shiftl9_add_lor (x m : Z) :
  0 <= m < 512 -> Z.shiftl x 9 + m = Z.lor (Z.shiftl x 9) m.
Proof.
  intros Hm.
  assert (Hland : Z.land (Z.shiftl x 9) m = 0).
  { apply Z.bits_inj_0. intros n. rewrite Z.land_spec.
    destruct (Z.lt_ge_cases n 9) as [Hlt | Hge].
    - rewrite Z.shiftl_spec_low by lia. reflexivity.
    - destruct (Z.eq_dec m 0) as [-> | Hnz].
      + rewrite Z.bits_0, andb_false_r. reflexivity.
      + rewrite (Z.bits_above_log2 m n), andb_false_r; [reflexivity | lia |].
        assert (Z.log2 m < 9) by (apply Z.log2_lt_pow2; lia). lia. }
  rewrite Z.add_nocarry_lxor by exact Hland.
  apply Z.lxor_lor, Hland.
Qed.

End Slices.

(** ** The stages, one at a time *)

Section Stages.

Lemma extract_ranges (meta : Z) :
  let f := extract meta in
  0 <= B f < 512 /\ 0 <= T f < 512 /\ 0 <= E f < 16 /\ 0 <= otype f < 8
  /\ 0 <= perms f < 64 /\ 0 <= R f < 2 /\ 0 <= v f < 2.
Proof.
  cbn zeta. unfold extract; cbn [B T E otype perms R v].
  pose proof (land_ones_range meta 9).
  pose proof (land_ones_range (Z.shiftr meta 9) 9).
  pose proof (land_ones_range (Z.shiftr meta 18) 4).
  pose proof (land_ones_range (Z.shiftr meta 22) 3).
  pose proof (land_ones_range (Z.shiftr meta 25) 6).
  pose proof (land_ones_range (Z.shiftr meta 31) 1).
  pose proof (land_ones_range (Z.shiftr meta 32) 1).
  change (Z.ones 9) with 511 in *. change (Z.ones 4) with 15 in *.
  change (Z.ones 3) with 7 in *. change (Z.ones 6) with 63 in *.
  change (Z.ones 1) with 1 in *.
  change (2 ^ 9) with 512 in *. change (2 ^ 4) with 16 in *.
  change (2 ^ 3) with 8 in *. change (2 ^ 6) with 64 in *.
  change (2 ^ 1) with 2 in *.
  lia.
Qed.

Lemma pbit_cases (p i : Z) : pbit p i = 0 \/ pbit p i = 1.
Proof.
  unfold pbit. pose proof (land_ones_range (Z.shiftr p i) 1) as H.
  change (Z.ones 1) with 1 in H. change (2 ^ 1) with 2 in H. lia.
Qed.

Lemma exponent_range (E : Z) :
  0 <= E < 16 -> 0 <= exponent E <= 24.
Proof.
  intros H. unfold exponent. destruct (Z.eqb_spec E 15); cbn; lia.
Qed.

(** With a non-negative exponent no shift of the bounds stage raises, and
    the stage computes the values below. *)
Lemma bounds_ok (addr e T B : Z) :
  0 <= e ->
  bounds addr e T B =
  Ok (let a_top := Z.shiftr addr (e + 9) in
      let a_mid := Z.land (Z.shiftr addr e) 0x1ff in
      let a_hi := if a_mid <? B then 1 else 0 in
      let t_hi := if T <? B then 1 else 0 in
      mk_boundsvars a_top a_mid a_hi t_hi (- a_hi) (t_hi - a_hi)
        (a_top + - a_hi) (a_top + (t_hi - a_hi))
        (Z.shiftl (Z.shiftl (a_top + - a_hi) 9 + B) e)
        (Z.shiftl (Z.shiftl (a_top + (t_hi - a_hi)) 9 + T) e)).
Proof.
  intros He. unfold bounds, rshift, lshift.
  destruct (Z.ltb_spec (e + 9) 0); [lia |].
  destruct (Z.ltb_spec e 0); [lia |].
  reflexivity.
Qed.

Lemma otypes_lookup_other (o : Z) :
  o < 0 \/ 5 < o -> otypes !! o = None.
Proof.
  intros H. unfold otypes. cbn [list_to_map foldr fst snd uncurry].
  repeat (rewrite lookup_insert_ne by lia).
  apply lookup_empty.
Qed.

(** The dict subscript is guarded by the membership test, so it never
    raises. *)
Lemma otype_str_of_ok (o : Z) :
  otype_str_of o = Ok (str o +:+ otype_label o).
Proof.
  destruct (Z.lt_ge_cases o 0) as [Hneg | Hpos].
  - unfold otype_str_of, contains.
    rewrite otypes_lookup_other by lia.
    destruct o; try lia. reflexivity.
  - destruct (Z.le_gt_cases o 5) as [Hle | Hgt].
    + assert (Ho : o = 0 \/ o = 1 \/ o = 2 \/ o = 3 \/ o = 4 \/ o = 5) by lia.
      destruct Ho as [-> | [-> | [-> | [-> | [-> | ->]]]]]; reflexivity.
    + unfold otype_str_of, contains.
      rewrite otypes_lookup_other by lia. cbn [bind].
      assert (Hl : otype_label o = "").
      { unfold otype_label.
        destruct o as [| q |]; try lia.
        do 3 (destruct q as [q | q |]; try lia; try reflexivity). }
      rewrite Hl. reflexivity.
Qed.

(** The run never raises; its final state is assembled from the stages. *)
Lemma run_ok (addr meta : Z) :
  exists b : boundsvars,
    let f := extract meta in
    let p := decode_perms (perms f) in
    let o := otype_shift (otype f) (EX p) in
    bounds addr (exponent (E f)) (T f) (B f) = Ok b
    /\ run addr meta =
       Ok (mk_globals f p (perm_str_of p) o (exponent (E f)) b
             (str o +:+ otype_label o)
             ((if negb (R f =? 0)
               then [raw_line f addr; reserved_warning]
               else [raw_line f addr])
              ++ [bounds_line b; "otype=" +:+ (str o +:+ otype_label o);
                  perm_str_of p])%list).
Proof.
  pose proof (extract_ranges meta) as Hr. cbn zeta in Hr.
  pose proof (exponent_range (E (extract meta))) as He.
  eexists. cbn zeta. split.
  - apply bounds_ok. lia.
  - unfold run. rewrite bounds_ok by lia. cbn [bind].
    rewrite otype_str_of_ok. cbn [bind].
    destruct (negb (R (extract meta) =? 0)); reflexivity.
Qed.

End Stages.

(** ** Properties of the decoder *)

Section Permissions.

(** Whatever the perms field, the three flags of the last branch stay 0:
    its guard [not p4 and not 3] is false, [3] being truthy. *)
Lemma decode_perms_last_branch_dead (p : Z) :
  U0 (decode_perms p) = 0 /\ SE (decode_perms p) = 0 /\ US (decode_perms p) = 0.
Proof.
  unfold decode_perms.
  destruct (pbit_cases p 4) as [-> | ->], (pbit_cases p 3) as [-> | ->],
    (pbit_cases p 2) as [-> | ->], (pbit_cases p 1) as [-> | ->],
    (pbit_cases p 0) as [-> | ->]; cbn; auto.
Qed.

(** The decoded flags (but [GL]) are a function of [p4..p0] alone. *)
Lemma decode_perms_low_bits (p q : Z) :
  (forall i, 0 <= i < 5 -> pbit p i = pbit q i) ->
  agree_but_GL (decode_perms p) (decode_perms q).
Proof.
  intros H. unfold decode_perms.
  rewrite (H 4), (H 3), (H 2), (H 1), (H 0) by lia.
  unfold agree_but_GL.
  repeat match goal with
         | |- context [if ?c then _ else _] => destruct c
         end; cbn; repeat split; reflexivity.
Qed.

End Permissions.

(** C7. The decoder is total: for every address and every metadata word the
    run completes with a final state; neither the shifts of the bounds stage
    nor the dict subscript of the classification raises. *)
Theorem C7_decode_total (addr meta : Z) :
  exists g : globals, run addr meta = Ok g.
Proof.
  destruct (run_ok addr meta) as [b [_ Hrun]].
  eexists. exact Hrun.
Qed.

(** C4. End-to-end example: address 0x00010000, E=0, T=0x010, B=0x000,
    perms with p4=p3=1 and the other bits 0, otype=0, tag=1, reserved=0
    decodes to base 0x00010000, top 0x00010010, length 0x10, the flags LD,
    SD, MC set and no other, object type unsealed. *)
Theorem C4_end_to_end_example :
  exists g : globals,
    run 0x00010000 0x130002000 = Ok g
    /\ g_fields g = {| B := 0x000; T := 0x010; E := 0; otype := 0;
                       perms := 24; R := 0; v := 1 |}
    /\ pbit 24 5 = 0 /\ pbit 24 4 = 1 /\ pbit 24 3 = 1
    /\ pbit 24 2 = 0 /\ pbit 24 1 = 0 /\ pbit 24 0 = 0
    /\ base (g_bounds g) = 0x00010000
    /\ top (g_bounds g) = 0x00010010
    /\ top (g_bounds g) - base (g_bounds g) = 0x10
    /\ g_perms g = {| GL := 0; LD := 1; SD := 1; MC := 1; SL := 0; LM := 0;
                      LG := 0; SR := 0; EX := 0; U0 := 0; SE := 0; US := 0 |}
    /\ g_otype g = 0
    /\ otype_str g = "0 (unsealed)"
    /\ stdout g =
       [ "raw: v=1 R=0 p= 11000 otype=0 E=0 T=0x010 B=0x000 addr=0x00010000";
         "00010000-000010010 l:000000010";
         "otype=0 (unsealed)";
         "- RWc-- -- ---" ].
Proof.
  eexists. split; [vm_compute; reflexivity |].
  cbn [g_fields g_bounds g_perms g_otype otype_str stdout base top].
  repeat split.
Qed.

(** C1 (as the code behaves). With p4 = p3 = 0 the last branch of the chain
    is never taken, so U0, SE and US stay 0 for every input; at perms =
    0b000111 (p2 = p1 = p0 = 1) the decoder yields no flag at all, where the
    table prescribes U0 = SE = US = 1. *)
Theorem C1_fallback_branch_never_taken :
  (forall addr meta : Z,
      exists g : globals,
        run addr meta = Ok g
        /\ U0 (g_perms g) = 0 /\ SE (g_perms g) = 0 /\ US (g_perms g) = 0)
  /\ (exists g : globals,
        run 0 0x0e000000 = Ok g
        /\ perms (g_fields g) = 7
        /\ pbit 7 4 = 0 /\ pbit 7 3 = 0
        /\ pbit 7 2 = 1 /\ pbit 7 1 = 1 /\ pbit 7 0 = 1
        /\ g_perms g = only_GL 0
        /\ perm_str g = "- ----- -- ---").
Proof.
  split.
  - intros addr meta. destruct (run_ok addr meta) as [b [_ Hrun]].
    eexists. split; [exact Hrun |]. cbn [g_perms].
    apply decode_perms_last_branch_dead.
  - eexists. split; [vm_compute; reflexivity |].
    cbn [g_fields g_perms perm_str perms]. repeat split.
Qed.

(** C6. With p4 = 1 and p3 = p2 = p1 = p0 = 0 the third rule is the one
    applied: SD = MC = 1 and LD = 0 (every other flag but GL is 0), not the
    fourth rule's LD = p1, SD = p0, which would leave SD = 0. *)
Theorem C6_specific_rule_first (addr meta : Z) :
  let p := perms (extract meta) in
  pbit p 4 = 1 -> pbit p 3 = 0 -> pbit p 2 = 0 -> pbit p 1 = 0 ->
  pbit p 0 = 0 ->
  exists g : globals,
    run addr meta = Ok g
    /\ g_perms g = {| GL := pbit p 5; LD := 0; SD := 1; MC := 1; SL := 0;
                      LM := 0; LG := 0; SR := 0; EX := 0; U0 := 0; SE := 0;
                      US := 0 |}
    /\ SD (g_perms g) <> pbit p 0.
Proof.
  intros p H4 H3 H2 H1 H0.
  destruct (run_ok addr meta) as [b [_ Hrun]].
  eexists. split; [exact Hrun |]. cbn [g_perms]. fold p.
  unfold decode_perms. rewrite H4, H3, H2, H1, H0. cbn.
  split; [reflexivity | discriminate].
Qed.

Lemma C6_specific_rule_first_witness :
  pbit (perms (extract 0x60000000)) 4 = 1
  /\ pbit (perms (extract 0x60000000)) 3 = 0
  /\ pbit (perms (extract 0x60000000)) 2 = 0
  /\ pbit (perms (extract 0x60000000)) 1 = 0
  /\ pbit (perms (extract 0x60000000)) 0 = 0
  /\ exists g : globals,
       run 0 0x60000000 = Ok g
       /\ GL (g_perms g) = 1 /\ LD (g_perms g) = 0
       /\ SD (g_perms g) = 1 /\ MC (g_perms g) = 1.
Proof.
  do 5 (split; [reflexivity |]).
  destruct (C6_specific_rule_first 0 0x60000000) as [g [Hrun [Hp _]]];
    try reflexivity.
  exists g. split; [exact Hrun |]. rewrite Hp. repeat split.
Defined.

Section Bounds.

(** The final bounds variables of a run, spelled out. *)
Lemma run_bounds (addr meta : Z) :
  exists g : globals,
    run addr meta = Ok g
    /\ g_fields g = extract meta
    /\ e g = exponent (E (extract meta))
    /\ 0 <= e g <= 24
    /\ g_bounds g =
       (let f := extract meta in
        let a_top := Z.shiftr addr (e g + 9) in
        let a_mid := Z.land (Z.shiftr addr (e g)) 0x1ff in
        let a_hi := if a_mid <? B f then 1 else 0 in
        let t_hi := if T f <? B f then 1 else 0 in
        mk_boundsvars a_top a_mid a_hi t_hi (- a_hi) (t_hi - a_hi)
          (a_top + - a_hi) (a_top + (t_hi - a_hi))
          (Z.shiftl (Z.shiftl (a_top + - a_hi) 9 + B f) (e g))
          (Z.shiftl (Z.shiftl (a_top + (t_hi - a_hi)) 9 + T f) (e g))).
Proof.
  pose proof (extract_ranges meta) as Hr. cbn zeta in Hr.
  pose proof (exponent_range (E (extract meta))) as He.
  assert (He' : 0 <= exponent (E (extract meta)) <= 24) by lia.
  clear Hr He.
  destruct (run_ok addr meta) as [b [Hb Hrun]]. cbn zeta in Hb, Hrun.
  rewrite bounds_ok in Hb by apply He'. apply Ok_inj in Hb.
  eexists. split; [exact Hrun |]. cbn [g_fields e g_bounds].
  split; [reflexivity |]. split; [reflexivity |]. split; [exact He' |].
  symmetry. exact Hb.
Qed.

End Bounds.

(** C2. When the address's mid slice did not wrap (addrMid >= B) but the
    top mantissa did (T < B), the decoded top is
    ((addrTop + 1) << 9 | T) << e, which is 2^(e+9) (one block of 512
    units of 2^e) above the uncorrected (addrTop << 9 | T) << e. *)
Theorem C2_top_wraparound_correction (addr meta : Z) :
  let f := extract meta in
  let e := exponent (E f) in
  let addrTop := Z.shiftr addr (e + 9) in
  let addrMid := Z.land (Z.shiftr addr e) 0x1ff in
  addrMid >= B f -> T f < B f ->
  exists g : globals,
    run addr meta = Ok g
    /\ a_top (g_bounds g) = addrTop /\ a_mid (g_bounds g) = addrMid
    /\ a_hi (g_bounds g) = 0 /\ t_hi (g_bounds g) = 1
    /\ c_t (g_bounds g) = 1
    /\ top (g_bounds g) = Z.shiftl (Z.lor (Z.shiftl (addrTop + 1) 9) (T f)) e
    /\ top (g_bounds g)
       = Z.shiftl (Z.lor (Z.shiftl addrTop 9) (T f)) e + 2 ^ (e + 9).
Proof.
  intros f e0 addrTop addrMid Hmid Htop.
  destruct (run_bounds addr meta) as [g [Hrun [Hf [He [Hrange Hb]]]]].
  pose proof (extract_ranges meta) as Hr. cbn zeta in Hr.
  exists g. split; [exact Hrun |].
  rewrite Hb. cbn zeta. rewrite He. fold f e0 addrTop addrMid.
  cbn [a_top a_mid a_hi t_hi c_t top].
  destruct (Z.ltb_spec addrMid (B f)) as [Hlt | _]; [lia |].
  destruct (Z.ltb_spec (T f) (B f)) as [_ | Hge]; [| lia].
  assert (He0 : 0 <= e0) by (unfold e0, f; lia).
  do 5 (split; [reflexivity |]).
  change (1 - 0) with 1. split.
  - rewrite shiftl9_add_lor by (subst f; lia). reflexivity.
  - rewrite !shiftl9_add_lor by (subst f; lia).
    rewrite <- !shiftl9_add_lor by (subst f; lia).
    rewrite !Z.shiftl_mul_pow2 by lia.
    rewrite Z.pow_add_r by lia. change (2 ^ 9) with 512. lia.
Qed.

Lemma C2_top_wraparound_correction_witness :
  Z.land (Z.shiftr 0x1180 (exponent (E (extract 0x2100)))) 0x1ff
  >= B (extract 0x2100)
  /\ T (extract 0x2100) < B (extract 0x2100)
  /\ exists g : globals,
       run 0x1180 0x2100 = Ok g
       /\ top (g_bounds g) = 0x1210
       /\ top (g_bounds g) = 0x1010 + 512.
Proof.
  split; [vm_compute; discriminate |]. split; [reflexivity |].
  destruct (C2_top_wraparound_correction 0x1180 0x2100)
    as [g [Hrun [_ [_ [_ [_ [_ [Htop _]]]]]]]].
  - vm_compute; discriminate.
  - reflexivity.
  - exists g. split; [exact Hrun |]. rewrite Htop. split; reflexivity.
Defined.

(** C10. The decoded base can be negative and is printed as such: at
    address 0, B = 1, T = 0, E = 0 the correction is -1, base is -511 and
    top is 0; in general, whenever addrTop = 0 and addrMid < B, base is
    ((-1 << 9) + B) << e, a negative number. *)
Theorem C10_negative_base :
  (exists g : globals,
      run 0 1 = Ok g
      /\ g_fields g = {| B := 1; T := 0; E := 0; otype := 0; perms := 0;
                         R := 0; v := 0 |}
      /\ a_top (g_bounds g) = 0 /\ a_mid (g_bounds g) = 0
      /\ c_b (g_bounds g) = -1
      /\ base (g_bounds g) = -511 /\ top (g_bounds g) = 0
      /\ nth_error (stdout g) 1 = Some "-00001ff-000000000 l:0000001ff")
  /\ (forall addr meta : Z,
        let f := extract meta in
        let e := exponent (E f) in
        Z.shiftr addr (e + 9) = 0 ->
        Z.land (Z.shiftr addr e) 0x1ff < B f ->
        exists g : globals,
          run addr meta = Ok g
          /\ c_b (g_bounds g) = -1
          /\ base (g_bounds g) = Z.shiftl (Z.shiftl (-1) 9 + B f) e
          /\ base (g_bounds g) < 0
          /\ nth_error (stdout g) (if R f =? 0 then 1%nat else 2%nat)
             = Some (format_zero 8 16 (base (g_bounds g)) +:+ "-"
                     +:+ format_zero 9 16 (top (g_bounds g)) +:+ " l:"
                     +:+ format_zero 9 16
                           (top (g_bounds g) - base (g_bounds g)))).
Proof.
  split.
  - eexists. split; [vm_compute; reflexivity |].
    cbn [g_fields g_bounds stdout a_top a_mid c_b base top nth_error].
    repeat split.
  - intros addr meta f e0 Htop Hmid.
    destruct (run_bounds addr meta) as [g [Hrun [Hf [He [Hrange Hb]]]]].
    pose proof (extract_ranges meta) as Hr. cbn zeta in Hr.
    assert (HB : B f < 512) by (subst f; lia). clear Hr.
    cbn zeta in Hb. rewrite He in Hb. fold f e0 in Hb. rewrite Htop in Hb.
    destruct (Z.ltb_spec (Z.land (Z.shiftr addr e0) 0x1ff) (B f))
      as [_ | Hge];
      [| exfalso; exact (Z.lt_irrefl _ (Z.lt_le_trans _ _ _ Hmid Hge))].
    exists g. split; [exact Hrun |].
    split; [rewrite Hb; reflexivity |].
    split; [rewrite Hb; reflexivity |].
    split.
    + rewrite Hb. cbn [base]. apply Z.shiftl_neg.
      change (Z.shiftl (0 + Z.opp 1) 9) with (-512). lia.
    + destruct (run_ok addr meta) as [b [_ Hrun']]. cbn zeta in Hrun'.
      rewrite Hrun in Hrun'. apply Ok_inj in Hrun'. subst g.
      cbn [stdout g_bounds].
      fold f. destruct (Z.eqb_spec (R f) 0); reflexivity.
Qed.

Lemma C10_negative_base_witness :
  Z.shiftr 0 (exponent (E (extract 1)) + 9) = 0
  /\ Z.land (Z.shiftr 0 (exponent (E (extract 1)))) 0x1ff < B (extract 1)
  /\ exists g : globals, run 0 1 = Ok g /\ base (g_bounds g) = -511.
Proof.
  split; [reflexivity |]. split; [reflexivity |].
  destruct (proj2 C10_negative_base 0 1) as [g [Hrun [_ [Hbase _]]]];
    try reflexivity.
  exists g. split; [exact Hrun |]. rewrite Hbase. reflexivity.
Defined.

(** C3. The object type that is classified is the extracted otype when it
    is 0 or EX is set, and otype + 8 otherwise; the printed classification
    is the number followed by the label of 0..5 and by nothing for any other
    value.  otype = 2 gives 10 (no label) without EX and "IRQ disable
    forward sentry" with EX. *)
Theorem C3_object_type_classification :
  (forall addr meta : Z,
      exists g : globals,
        run addr meta = Ok g
        /\ g_otype g =
           (if (otype (g_fields g) =? 0) || truthy (EX (g_perms g))
            then otype (g_fields g) else otype (g_fields g) + 8)
        /\ otype_str g = str (g_otype g) +:+ otype_label (g_otype g)
        /\ last (stdout g) = Some (perm_str g)
        /\ In ("otype=" +:+ otype_str g) (stdout g))
  /\ (forall o : Z, o < 0 \/ 5 < o -> otype_str_of o = Ok (str o))
  /\ (exists g : globals,
        run 0 0x00800000 = Ok g
        /\ otype (g_fields g) = 2 /\ EX (g_perms g) = 0
        /\ g_otype g = 10 /\ otype_str g = "10")
  /\ (exists g : globals,
        run 0 0x10800000 = Ok g
        /\ otype (g_fields g) = 2 /\ EX (g_perms g) = 1
        /\ g_otype g = 2 /\ otype_str g = "2 (IRQ disable forward sentry)").
Proof.
  split; [| split; [| split]].
  - intros addr meta. destruct (run_ok addr meta) as [b [_ Hrun]].
    cbn zeta in Hrun. eexists. split; [exact Hrun |].
    cbn [g_otype g_fields g_perms otype_str stdout perm_str].
    split.
    { unfold otype_shift.
      destruct (otype (extract meta) =? 0),
        (truthy (EX (decode_perms (perms (extract meta))))); reflexivity. }
    split; [reflexivity |].
    destruct (negb (R (extract meta) =? 0)); cbn [app last In]; split;
      first [reflexivity | tauto].
  - intros o Ho. unfold otype_str_of, contains.
    rewrite otypes_lookup_other by exact Ho. cbn [bind].
    rewrite append_empty_r. reflexivity.
  - eexists. split; [vm_compute; reflexivity |].
    cbn [g_fields g_perms g_otype otype_str otype EX]. repeat split.
  - eexists. split; [vm_compute; reflexivity |].
    cbn [g_fields g_perms g_otype otype_str otype EX]. repeat split.
Qed.

(** C5. The effective exponent is 24 when E = 15 and E itself for every
    other E (0..14); with E = 0, B = 0, T = 0 and address 0 the decoded
    bounds are base = 0 and top = 0. *)
Theorem C5_exponent_boundary :
  (forall addr meta : Z,
      exists g : globals,
        run addr meta = Ok g
        /\ 0 <= E (g_fields g) <= 15
        /\ e g = (if E (g_fields g) =? 15 then 24 else E (g_fields g)))
  /\ (forall meta : Z,
        E (extract meta) = 0 -> T (extract meta) = 0 ->
        B (extract meta) = 0 ->
        exists g : globals,
          run 0 meta = Ok g
          /\ e g = 0
          /\ base (g_bounds g) = 0 /\ top (g_bounds g) = 0).
Proof.
  split.
  - intros addr meta. destruct (run_ok addr meta) as [b [_ Hrun]].
    cbn zeta in Hrun. pose proof (extract_ranges meta) as Hr. cbn zeta in Hr.
    eexists. split; [exact Hrun |]. cbn [g_fields e].
    split; [lia |]. unfold exponent.
    destruct (E (extract meta) =? 15); reflexivity.
  - intros meta HE HT HB.
    destruct (run_bounds 0 meta) as [g [Hrun [_ [He [_ Hb]]]]].
    rewrite HE in He. change (exponent 0) with 0 in He.
    cbn zeta in Hb. rewrite He, HT, HB in Hb.
    exists g. split; [exact Hrun |]. split; [exact He |].
    rewrite Hb. split; reflexivity.
Qed.

Lemma C5_exponent_boundary_witness :
  E (extract 0x1ffc00000) = 0 /\ T (extract 0x1ffc00000) = 0
  /\ B (extract 0x1ffc00000) = 0
  /\ exists g : globals,
       run 0 0x1ffc00000 = Ok g
       /\ base (g_bounds g) = 0 /\ top (g_bounds g) = 0.
Proof.
  split; [reflexivity |]. split; [reflexivity |]. split; [reflexivity |].
  destruct (proj2 C5_exponent_boundary 0x1ffc00000)
    as [g [Hrun [_ Hbt]]]; try reflexivity.
  exists g. split; [exact Hrun | exact Hbt].
Defined.

Section MetadataBits.

(** A one-bit slice is the bit itself. *)
Lemma pbit_testbit (p i : Z) : 0 <= i -> pbit p i = Z.b2z (Z.testbit p i).
Proof.
  intros Hi. unfold pbit. change 1 with (Z.ones 1).
  rewrite Z.land_ones, Z.shiftr_div_pow2 by lia.
  rewrite Z.testbit_spec' by lia. reflexivity.
Qed.

(** Two metadata words that agree on bits 0..30 and on bit 32 yield the
    same fields, but for [R]. *)
Lemma extract_ext_but_R (m m' : Z) :
  (forall i, i <> 31 -> Z.testbit m i = Z.testbit m' i) ->
  B (extract m) = B (extract m') /\ T (extract m) = T (extract m')
  /\ E (extract m) = E (extract m') /\ otype (extract m) = otype (extract m')
  /\ perms (extract m) = perms (extract m') /\ v (extract m) = v (extract m').
Proof.
  intros H. unfold extract; cbn [B T E otype perms v].
  split; [| split; [| split; [| split; [| split]]]].
  - apply (slice_ext m m' 0 9); [lia |]. intros i Hi. apply H. lia.
  - apply (slice_ext m m' 9 9); [lia |]. intros i Hi. apply H. lia.
  - apply (slice_ext m m' 18 4); [lia |]. intros i Hi. apply H. lia.
  - apply (slice_ext m m' 22 3); [lia |]. intros i Hi. apply H. lia.
  - apply (slice_ext m m' 25 6); [lia |]. intros i Hi. apply H. lia.
  - apply (slice_ext m m' 32 1); [lia |]. intros i Hi. apply H. lia.
Qed.

(** The same for bit 30, the top bit of the perms field. *)
Lemma extract_ext_but_bit30 (m m' : Z) :
  (forall i, i <> 30 -> Z.testbit m i = Z.testbit m' i) ->
  B (extract m) = B (extract m') /\ T (extract m) = T (extract m')
  /\ E (extract m) = E (extract m') /\ otype (extract m) = otype (extract m')
  /\ R (extract m) = R (extract m') /\ v (extract m) = v (extract m')
  /\ (forall i, 0 <= i < 5 ->
        pbit (perms (extract m)) i = pbit (perms (extract m')) i).
Proof.
  intros H. unfold extract; cbn [B T E otype perms R v].
  split; [| split; [| split; [| split; [| split; [| split]]]]].
  - apply (slice_ext m m' 0 9); [lia |]. intros i Hi. apply H. lia.
  - apply (slice_ext m m' 9 9); [lia |]. intros i Hi. apply H. lia.
  - apply (slice_ext m m' 18 4); [lia |]. intros i Hi. apply H. lia.
  - apply (slice_ext m m' 22 3); [lia |]. intros i Hi. apply H. lia.
  - apply (slice_ext m m' 31 1); [lia |]. intros i Hi. apply H. lia.
  - apply (slice_ext m m' 32 1); [lia |]. intros i Hi. apply H. lia.
  - intros i Hi. rewrite !pbit_testbit by lia. f_equal.
    change 63 with (Z.ones 6). rewrite !slice_testbit by lia.
    rewrite (H (i + 25)) by lia. reflexivity.
Qed.

Lemma perms_bit5 (m : Z) :
  pbit (perms (extract m)) 5 = Z.b2z (Z.testbit m 30).
Proof.
  rewrite pbit_testbit by lia. unfold extract; cbn [perms].
  change 63 with (Z.ones 6). rewrite slice_testbit by lia.
  change (5 + 25) with 30. change (5 <? 6) with true.
  rewrite andb_true_r. reflexivity.
Qed.

Lemma reserved_bit (m : Z) : R (extract m) = Z.b2z (Z.testbit m 31).
Proof.
  unfold extract; cbn [R]. apply (pbit_testbit m 31). lia.
Qed.

End MetadataBits.

(** C8. A set reserved bit (bit 31 of the metadata) only adds the line
    "Reserved bit set!" after the first line of output: the run completes,
    and the permission flags, bounds, exponent, object type and their
    printed lines are those of the same input with the bit cleared. *)
Theorem C8_reserved_bit_is_a_warning (addr meta : Z) :
  exists (g g0 : globals) (rest : list string),
    run addr meta = Ok g
    /\ run addr (Z.clearbit meta 31) = Ok g0
    /\ R (g_fields g) = Z.b2z (Z.testbit meta 31)
    /\ R (g_fields g0) = 0
    /\ stdout g0 = raw_line (g_fields g0) addr :: rest
    /\ stdout g =
       (if R (g_fields g) =? 0
        then raw_line (g_fields g) addr :: rest
        else raw_line (g_fields g) addr :: reserved_warning :: rest)
    /\ g_perms g = g_perms g0
    /\ g_bounds g = g_bounds g0
    /\ top (g_bounds g) - base (g_bounds g)
       = top (g_bounds g0) - base (g_bounds g0)
    /\ e g = e g0
    /\ g_otype g = g_otype g0
    /\ otype_str g = otype_str g0
    /\ perm_str g = perm_str g0.
Proof.
  destruct (run_ok addr meta) as [b [Hb Hrun]].
  destruct (run_ok addr (Z.clearbit meta 31)) as [b0 [Hb0 Hrun0]].
  cbn zeta in Hb, Hrun, Hb0, Hrun0.
  destruct (extract_ext_but_R (Z.clearbit meta 31) meta)
    as [HB [HT [HE [Ho [Hp Hv]]]]].
  { intros i Hi. apply Z.clearbit_neq. lia. }
  assert (HR0 : R (extract (Z.clearbit meta 31)) = 0).
  { rewrite reserved_bit, Z.clearbit_eq. reflexivity. }
  rewrite HB, HT, HE in Hb0. rewrite Hb0 in Hb. apply Ok_inj in Hb.
  subst b0.
  rewrite Ho, Hp, HR0 in Hrun0. change (negb (0 =? 0)) with false in Hrun0.
  cbn [app] in Hrun0.
  eexists _, _, _. split; [exact Hrun |]. split; [exact Hrun0 |].
  cbn [g_fields g_perms g_bounds e g_otype otype_str perm_str stdout R].
  split; [apply reserved_bit |].
  split; [exact HR0 |]. split; [reflexivity |].
  split; [destruct (R (extract meta) =? 0); reflexivity |].
  rewrite HE. repeat split.
Qed.

(** C9. Toggling bit 5 of the perms field (bit 30 of the metadata) flips GL
    and changes nothing else: the other eleven flags, the bounds (base, top,
    length), the exponent and the object type are identical. *)
Theorem C9_global_bit_independent (addr meta : Z) :
  exists g g' : globals,
    run addr meta = Ok g
    /\ run addr (Z.lxor meta (Z.shiftl 1 30)) = Ok g'
    /\ GL (g_perms g) = Z.b2z (Z.testbit meta 30)
    /\ GL (g_perms g') = 1 - GL (g_perms g)
    /\ agree_but_GL (g_perms g) (g_perms g')
    /\ g_bounds g' = g_bounds g
    /\ top (g_bounds g') - base (g_bounds g')
       = top (g_bounds g) - base (g_bounds g)
    /\ e g' = e g
    /\ g_otype g' = g_otype g
    /\ otype_str g' = otype_str g.
Proof.
  set (meta' := Z.lxor meta (Z.shiftl 1 30)).
  assert (Hbits : forall i, i <> 30 -> Z.testbit meta i = Z.testbit meta' i).
  { intros i Hi. unfold meta'. rewrite Z.lxor_spec.
    change (Z.shiftl 1 30) with (2 ^ 30).
    rewrite Z.pow2_bits_false by lia. rewrite xorb_false_r. reflexivity. }
  assert (Hbit30 : Z.testbit meta' 30 = negb (Z.testbit meta 30)).
  { unfold meta'. rewrite Z.lxor_spec. change (Z.shiftl 1 30) with (2 ^ 30).
    rewrite Z.pow2_bits_true by lia. apply xorb_true_r. }
  destruct (extract_ext_but_bit30 meta meta' Hbits)
    as [HB [HT [HE [Ho [HR [Hv Hp]]]]]].
  pose proof (decode_perms_low_bits _ _ Hp) as Hagree.
  destruct (run_ok addr meta) as [b [Hb Hrun]].
  destruct (run_ok addr meta') as [b' [Hb' Hrun']].
  cbn zeta in Hb, Hrun, Hb', Hrun'.
  rewrite <- HB, <- HT, <- HE in Hb'. rewrite Hb in Hb'. apply Ok_inj in Hb'.
  subst b'.
  assert (HEX : EX (decode_perms (perms (extract meta')))
                = EX (decode_perms (perms (extract meta)))).
  { symmetry. apply Hagree. }
  assert (HGL : forall m, GL (decode_perms (perms (extract m)))
                          = Z.b2z (Z.testbit m 30)).
  { intros m. rewrite <- perms_bit5. unfold decode_perms.
    repeat match goal with
           | |- context [if ?c then _ else _] => destruct c
           end; reflexivity. }
  eexists _, _. split; [exact Hrun |]. split; [exact Hrun' |].
  cbn [g_perms g_bounds e g_otype otype_str].
  split; [apply HGL |].
  split; [rewrite !HGL, Hbit30; destruct (Z.testbit meta 30); reflexivity |].
  split; [exact Hagree |].
  rewrite HEX, <- Ho, <- HE. repeat split.
Qed.

(** ** The command line *)

Example main_plus_form :
  option_map stdout
    (match main plain_hex "00010000+130002000" with
     | Ok g => Some g | Raise _ => None end)
  = Some [ "raw: v=1 R=0 p= 11000 otype=0 E=0 T=0x010 B=0x000 addr=0x00010000";
           "00010000-000010010 l:000000010";
           "otype=0 (unsealed)";
           "- RWc-- -- ---" ].
Proof. vm_compute. reflexivity. Qed.

Example main_single_word :
  main plain_hex "13000200000010000" = main plain_hex "00010000+130002000".
Proof. vm_compute. reflexivity. Qed.

Example main_short_word :
  main plain_hex "00010000"
  = Raise (ValueError "invalid literal for int() with base 16").
Proof. vm_compute. reflexivity. Qed.

Section Strings.

Lemma append_cons (c : ascii) (s t : string) :
  String c s +:+ t = String c (s +:+ t).
Proof. reflexivity. Qed.

Lemma length_append (s t : string) :
  String.length (s +:+ t) = (String.length s + String.length t)%nat.
Proof.
  induction s as [| c s IH]; [reflexivity |].
  rewrite append_cons. cbn [String.length]. rewrite IH. reflexivity.
Qed.

Lemma str_take_drop (n : nat) (s : string) :
  str_take n s +:+ str_drop n s = s.
Proof.
  revert s. induction n as [| n IH]; intros s.
  - destruct s; reflexivity.
  - destruct s as [| c s]; [reflexivity |].
    cbn [str_take str_drop]. rewrite append_cons, IH. reflexivity.
Qed.

Lemma length_str_drop (n : nat) (s : string) :
  String.length (str_drop n s) = (String.length s - n)%nat.
Proof.
  revert s. induction n as [| n IH]; intros s.
  - destruct s; cbn [str_drop String.length]; lia.
  - destruct s as [| c s]; [reflexivity |].
    cbn [str_drop String.length]. rewrite IH. lia.
Qed.

Lemma str_drop_app_length (m a : string) :
  str_drop (String.length m) (m +:+ a) = a.
Proof.
  induction m as [| c m IH]; [destruct a; reflexivity |].
  rewrite append_cons. cbn [String.length str_drop]. exact IH.
Qed.

Lemma str_take_app_length (m a : string) :
  str_take (String.length m) (m +:+ a) = m.
Proof.
  induction m as [| c m IH]; [destruct a; reflexivity |].
  rewrite append_cons. cbn [String.length str_take]. rewrite IH. reflexivity.
Qed.

Lemma has_char_append (c : ascii) (s t : string) :
  has_char c (s +:+ t) = has_char c s || has_char c t.
Proof.
  induction s as [| d s IH]; [reflexivity |].
  rewrite append_cons. cbn [has_char]. rewrite IH, orb_assoc. reflexivity.
Qed.

Lemma str_split_nonempty (c : ascii) (s : string) : str_split c s <> [].
Proof.
  induction s as [| d s IH]; [discriminate |].
  cbn [str_split]. destruct (Ascii.eqb d c); [discriminate |].
  destruct (str_split c s); discriminate.
Qed.

Lemma str_split_no_sep (c : ascii) (s : string) :
  has_char c s = false -> str_split c s = [s].
Proof.
  induction s as [| d s IH]; [reflexivity |].
  cbn [has_char str_split]. intros H. apply orb_false_iff in H as [Hd Hs].
  rewrite Hd, (IH Hs). reflexivity.
Qed.

Lemma str_split_at_sep (c : ascii) (a r : string) :
  has_char c a = false ->
  str_split c (a +:+ String c r) = a :: str_split c r.
Proof.
  induction a as [| d a IH]; intros H.
  - change ("" +:+ String c r) with (String c r). cbn [str_split].
    rewrite Ascii.eqb_refl. reflexivity.
  - cbn [has_char] in H. apply orb_false_iff in H as [Hd Ha].
    rewrite append_cons. cbn [str_split]. rewrite Hd, (IH Ha). reflexivity.
Qed.

Lemma length_str_split_app (c : ascii) (a r : string) :
  length (str_split c (a +:+ String c r))
  = (length (str_split c a) + length (str_split c r))%nat.
Proof.
  induction a as [| d a IH].
  - change ("" +:+ String c r) with (String c r). cbn [str_split].
    rewrite Ascii.eqb_refl. reflexivity.
  - rewrite append_cons. cbn [str_split]. destruct (Ascii.eqb d c).
    + cbn [length]. rewrite IH. reflexivity.
    + pose proof (str_split_nonempty c (a +:+ String c r)) as H1.
      pose proof (str_split_nonempty c a) as H2.
      destruct (str_split c (a +:+ String c r)) as [| x xs]; [easy |].
      destruct (str_split c a) as [| y ys]; [easy |].
      exact IH.
Qed.

Lemma split_arg_at_plus (addr_hex meta_hex : string) :
  has_char "+" addr_hex = false ->
  has_char "+" meta_hex = false ->
  split_arg (addr_hex +:+ "+" +:+ meta_hex) = Ok (addr_hex, meta_hex).
Proof.
  intros Ha Hm. unfold split_arg.
  change ("+" +:+ meta_hex) with (String "+" meta_hex).
  rewrite has_char_append. cbn [has_char].
  rewrite Ascii.eqb_refl, orb_true_r.
  rewrite str_split_at_sep by exact Ha.
  rewrite str_split_no_sep by exact Hm. reflexivity.
Qed.

End Strings.

(** X1. A one-word argument (no [+]) is cut eight characters from its end:
    the address text is its last eight characters (all of it when it is
    shorter), the metadata text is what comes before, and the two put back
    together give the argument. *)
Theorem X1_split_arg_single_word (cap_hex : string) :
  has_char "+" cap_hex = false ->
  exists addr_hex meta_hex : string,
    split_arg cap_hex = Ok (addr_hex, meta_hex)
    /\ meta_hex +:+ addr_hex = cap_hex
    /\ String.length addr_hex = Nat.min 8 (String.length cap_hex)
    /\ String.length meta_hex = (String.length cap_hex - 8)%nat.
Proof.
  intros H. unfold split_arg. rewrite H.
  eexists _, _. split; [reflexivity |].
  unfold last_chars, but_last_chars. split; [apply str_take_drop |].
  pose proof (length_str_drop (String.length cap_hex - 8) cap_hex) as Hd.
  pose proof (str_take_drop (String.length cap_hex - 8) cap_hex) as Htd.
  apply (f_equal String.length) in Htd. rewrite length_append in Htd.
  lia.
Qed.

Lemma X1_split_arg_single_word_witness :
  has_char "+" "13000200000010000" = false
  /\ exists addr_hex meta_hex : string,
       split_arg "13000200000010000" = Ok (addr_hex, meta_hex)
       /\ meta_hex +:+ addr_hex = "13000200000010000"
       /\ String.length addr_hex = 8%nat
       /\ String.length meta_hex = 9%nat.
Proof.
  split; [reflexivity |].
  exact (X1_split_arg_single_word "13000200000010000" eq_refl).
Defined.

(** X2. An argument [addr+meta] whose two parts hold no further [+] is
    split at the [+], whatever the lengths of the parts. *)
Theorem X2_split_arg_plus_form (addr_hex meta_hex : string) :
  has_char "+" addr_hex = false ->
  has_char "+" meta_hex = false ->
  split_arg (addr_hex +:+ "+" +:+ meta_hex) = Ok (addr_hex, meta_hex).
Proof. apply split_arg_at_plus. Qed.

Lemma X2_split_arg_plus_form_witness :
  has_char "+" "10000" = false /\ has_char "+" "130002000" = false
  /\ split_arg "10000+130002000" = Ok ("10000", "130002000").
Proof.
  split; [reflexivity |]. split; [reflexivity |].
  exact (X2_split_arg_plus_form "10000" "130002000" eq_refl eq_refl).
Defined.

(** X3. An argument with two [+] or more is rejected: unpacking the split
    into two names raises [ValueError]. *)
Theorem X3_split_arg_two_pluses_raises (a b c : string) :
  split_arg (a +:+ "+" +:+ b +:+ "+" +:+ c)
  = Raise (ValueError "too many values to unpack (expected 2)").
Proof.
  unfold split_arg.
  change ("+" +:+ b +:+ "+" +:+ c) with (String "+" (b +:+ String "+" c)).
  rewrite has_char_append. cbn [has_char].
  rewrite Ascii.eqb_refl, orb_true_r.
  pose proof (length_str_split_app "+" a (b +:+ String "+" c)) as Hlen.
  rewrite (length_str_split_app "+" b c) in Hlen.
  pose proof (str_split_nonempty "+" a) as Ha.
  pose proof (str_split_nonempty "+" b) as Hb.
  pose proof (str_split_nonempty "+" c) as Hc.
  destruct (str_split "+" a) as [| a1 la]; [easy |].
  destruct (str_split "+" b) as [| b1 lb]; [easy |].
  destruct (str_split "+" c) as [| c1 lc]; [easy |].
  cbn [length] in Hlen.
  destruct (str_split "+" (a +:+ String "+" (b +:+ String "+" c)))
    as [| x [| y [| z l]]]; cbn [length] in Hlen; try lia.
  reflexivity.
Qed.

(** X4. The two forms of the argument are equivalent: when the address
    text has exactly eight characters, the one-word form [meta ++ addr]
    and the form [addr+meta] give the same run, whatever [int(s, 16)]
    does on the two texts. *)
Theorem X4_main_forms_agree (int16 : string -> result Z)
    (addr_hex meta_hex : string) :
  has_char "+" addr_hex = false ->
  has_char "+" meta_hex = false ->
  String.length addr_hex = 8%nat ->
  main int16 (meta_hex +:+ addr_hex)
  = main int16 (addr_hex +:+ "+" +:+ meta_hex).
Proof.
  intros Ha Hm Hlen. unfold main.
  rewrite split_arg_at_plus by assumption.
  unfold split_arg. rewrite has_char_append, Ha, Hm. cbn [orb].
  unfold last_chars, but_last_chars.
  rewrite length_append, Hlen.
  replace (String.length meta_hex + 8 - 8)%nat with (String.length meta_hex)
    by lia.
  rewrite str_drop_app_length, str_take_app_length. reflexivity.
Qed.

Lemma X4_main_forms_agree_witness :
  has_char "+" "00010000" = false /\ has_char "+" "130002000" = false
  /\ String.length "00010000" = 8%nat
  /\ main plain_hex "13000200000010000"
     = main plain_hex "00010000+130002000".
Proof.
  split; [reflexivity |]. split; [reflexivity |]. split; [reflexivity |].
  exact (X4_main_forms_agree plain_hex "00010000" "130002000"
           eq_refl eq_refl eq_refl).
Defined.

(** X5. A one-word argument of eight characters or fewer never decodes:
    all of it is taken as the address and the metadata text is empty, so
    the run ends with the exception of [int('', 16)] (or, before that, with
    the one that the address text raises). *)
Theorem X5_main_short_word_raises (int16 : string -> result Z) (e0 : exn)
    (cap_hex : string) :
  int16 "" = Raise e0 ->
  has_char "+" cap_hex = false ->
  (String.length cap_hex <= 8)%nat ->
  split_arg cap_hex = Ok (cap_hex, "")
  /\ main int16 cap_hex =
     match int16 cap_hex with
     | Ok _ => Raise e0
     | Raise e' => Raise e'
     end.
Proof.
  intros Hempty Hplus Hlen.
  assert (Hs : split_arg cap_hex = Ok (cap_hex, "")).
  { unfold split_arg. rewrite Hplus. unfold last_chars, but_last_chars.
    replace (String.length cap_hex - 8)%nat with 0%nat by lia.
    destruct cap_hex; reflexivity. }
  split; [exact Hs |].
  unfold main. rewrite Hs. cbn [bind fst snd].
  destruct (int16 cap_hex); cbn [bind]; [rewrite Hempty |]; reflexivity.
Qed.

Lemma X5_main_short_word_raises_witness :
  plain_hex "" = Raise (ValueError "invalid literal for int() with base 16")
  /\ has_char "+" "00010000" = false
  /\ (String.length "00010000" <= 8)%nat
  /\ main plain_hex "00010000"
     = Raise (ValueError "invalid literal for int() with base 16").
Proof.
  split; [reflexivity |]. split; [reflexivity |].
  split; [cbn; lia |].
  refine (eq_trans
            (proj2 (X5_main_short_word_raises plain_hex _ "00010000"
                      eq_refl eq_refl _)) _).
  - cbn; lia.
  - reflexivity.
Defined.

(** ** Field extraction *)

Section Extraction.

Lemma slice_div_mod (x k w : Z) :
  0 <= k -> 0 <= w ->
  Z.land (Z.shiftr x k) (Z.ones w) = (x / 2 ^ k) mod 2 ^ w.
Proof.
  intros Hk Hw. rewrite Z.land_ones, Z.shiftr_div_pow2 by lia. reflexivity.
Qed.

Lemma extract_div_mod (meta : Z) :
  extract meta =
  {| B := meta mod 512;
     T := (meta / 512) mod 512;
     E := (meta / 262144) mod 16;
     otype := (meta / 4194304) mod 8;
     perms := (meta / 33554432) mod 64;
     R := (meta / 2147483648) mod 2;
     v := (meta / 4294967296) mod 2 |}.
Proof.
  unfold extract. f_equal.
  - change 0x1ff with (Z.ones 9). rewrite Z.land_ones by lia. reflexivity.
  - apply (slice_div_mod meta 9 9); lia.
  - apply (slice_div_mod meta 18 4); lia.
  - apply (slice_div_mod meta 22 3); lia.
  - apply (slice_div_mod meta 25 6); lia.
  - apply (slice_div_mod meta 31 1); lia.
  - apply (slice_div_mod meta 32 1); lia.
Qed.

Lemma pack_extract_mod (meta : Z) : pack (extract meta) = meta mod 2 ^ 33.
Proof.
  rewrite extract_div_mod. unfold pack; cbn [B T E otype perms R v].
  change (2 ^ 33) with 8589934592. change (2 ^ 9) with 512.
  change (2 ^ 18) with 262144. change (2 ^ 22) with 4194304.
  change (2 ^ 25) with 33554432. change (2 ^ 31) with 2147483648.
  change (2 ^ 32) with 4294967296.
  pose proof (Z.rem_mul_r meta 512 512) as H1.
  pose proof (Z.rem_mul_r meta 262144 16) as H2.
  pose proof (Z.rem_mul_r meta 4194304 8) as H3.
  pose proof (Z.rem_mul_r meta 33554432 64) as H4.
  pose proof (Z.rem_mul_r meta 2147483648 2) as H5.
  pose proof (Z.rem_mul_r meta 4294967296 2) as H6.
  change (512 * 512) with 262144 in H1.
  change (262144 * 16) with 4194304 in H2.
  change (4194304 * 8) with 33554432 in H3.
  change (33554432 * 64) with 2147483648 in H4.
  change (2147483648 * 2) with 4294967296 in H5.
  change (4294967296 * 2) with 8589934592 in H6.
  lia.
Qed.

Lemma extract_mod (meta : Z) : extract (meta mod 2 ^ 33) = extract meta.
Proof.
  assert (Hb : forall i, i < 33 ->
                 Z.testbit (meta mod 2 ^ 33) i = Z.testbit meta i).
  { intros i Hi. apply Z.mod_pow2_bits_low. exact Hi. }
  unfold extract. f_equal.
  - apply (slice_ext (meta mod 2 ^ 33) meta 0 9); [lia |].
    intros i Hi. apply Hb. lia.
  - apply (slice_ext (meta mod 2 ^ 33) meta 9 9); [lia |].
    intros i Hi. apply Hb. lia.
  - apply (slice_ext (meta mod 2 ^ 33) meta 18 4); [lia |].
    intros i Hi. apply Hb. lia.
  - apply (slice_ext (meta mod 2 ^ 33) meta 22 3); [lia |].
    intros i Hi. apply Hb. lia.
  - apply (slice_ext (meta mod 2 ^ 33) meta 25 6); [lia |].
    intros i Hi. apply Hb. lia.
  - apply (slice_ext (meta mod 2 ^ 33) meta 31 1); [lia |].
    intros i Hi. apply Hb. lia.
  - apply (slice_ext (meta mod 2 ^ 33) meta 32 1); [lia |].
    intros i Hi. apply Hb. lia.
Qed.

Lemma run_depends_on_fields (addr meta meta' : Z) :
  extract meta = extract meta' -> run addr meta = run addr meta'.
Proof. intros H. unfold run. rewrite H. reflexivity. Qed.

End Extraction.

(** X6. The seven fields partition the low 33 bits of the metadata word:
    put back at their positions they give the word modulo 2^33, so a word
    below 2^33 is recovered from its fields. *)
Theorem X6_fields_recompose (meta : Z) :
  pack (extract meta) = meta mod 2 ^ 33
  /\ (0 <= meta < 2 ^ 33 -> pack (extract meta) = meta).
Proof.
  split; [apply pack_extract_mod |].
  intros H. rewrite pack_extract_mod. apply Z.mod_small. exact H.
Qed.

Lemma X6_fields_recompose_witness :
  0 <= 0x1908a0403 < 2 ^ 33 /\ pack (extract 0x1908a0403) = 0x1908a0403.
Proof.
  split; [cbn; lia |].
  apply (proj2 (X6_fields_recompose 0x1908a0403)). cbn; lia.
Defined.

(** X7. Extraction undoes packing: seven values, each within the width of
    its field, packed into a word come back unchanged. *)
Theorem X7_extract_pack (f : fields) :
  in_range f -> extract (pack f) = f.
Proof.
  intros Hr.
  pose proof (pack_extract_mod (pack f)) as Hp.
  pose proof (extract_ranges (pack f)) as He. cbn zeta in He.
  destruct f as [b t e0 o p r v0].
  unfold in_range in Hr; cbn [B T E otype perms R v] in Hr.
  destruct (extract _) as [b' t' e' o' p' r' v'] eqn:Hx.
  unfold pack in Hp; cbn [B T E otype perms R v] in Hp, He.
  change (2 ^ 9) with 512 in *. change (2 ^ 18) with 262144 in *.
  change (2 ^ 22) with 4194304 in *. change (2 ^ 25) with 33554432 in *.
  change (2 ^ 31) with 2147483648 in *. change (2 ^ 32) with 4294967296 in *.
  change (2 ^ 33) with 8589934592 in *. change (2 ^ 4) with 16 in *.
  change (2 ^ 3) with 8 in *. change (2 ^ 6) with 64 in *.
  rewrite Z.mod_small in Hp by lia.
  assert (b' = b /\ t' = t /\ e' = e0 /\ o' = o /\ p' = p /\ r' = r
          /\ v' = v0) as (-> & -> & -> & -> & -> & -> & ->) by lia.
  reflexivity.
Qed.

Lemma X7_extract_pack_witness :
  in_range {| B := 3; T := 0x102; E := 2; otype := 2; perms := 8; R := 1;
              v := 1 |}
  /\ extract (pack {| B := 3; T := 0x102; E := 2; otype := 2; perms := 8;
                      R := 1; v := 1 |})
     = {| B := 3; T := 0x102; E := 2; otype := 2; perms := 8; R := 1;
          v := 1 |}.
Proof.
  assert (Hr : in_range {| B := 3; T := 0x102; E := 2; otype := 2;
                           perms := 8; R := 1; v := 1 |}).
  { unfold in_range; cbn; lia. }
  split; [exact Hr |]. exact (X7_extract_pack _ Hr).
Defined.

(** X8. Nothing above bit 32 of the metadata word is looked at: adding any
    multiple of 2^33 to the word gives the same run, output included. *)
Theorem X8_high_bits_ignored (addr meta k : Z) :
  extract (meta + k * 2 ^ 33) = extract meta
  /\ run addr (meta + k * 2 ^ 33) = run addr meta.
Proof.
  assert (H : extract (meta + k * 2 ^ 33) = extract meta).
  { rewrite <- (extract_mod (meta + k * 2 ^ 33)), <- (extract_mod meta).
    rewrite Z.mod_add by (apply Z.pow_nonzero; lia). reflexivity. }
  split; [exact H | apply run_depends_on_fields, H].
Qed.

(** ** The permission flags and their printed form *)

Section PermissionFlags.

(** The decoder by cases on the five low bits. *)
Lemma decode_perms_cases (p : Z) :
  let d := decode_perms p in
  GL d = pbit p 5
  /\ ((pbit p 4 = 1 /\ pbit p 3 = 1
       /\ d = {| GL := pbit p 5; LD := 1; SD := 1; MC := 1; SL := pbit p 2;
                 LM := pbit p 1; LG := pbit p 0; SR := 0; EX := 0; U0 := 0;
                 SE := 0; US := 0 |})
      \/ (pbit p 4 = 1 /\ pbit p 3 = 0 /\ pbit p 2 = 1
          /\ d = {| GL := pbit p 5; LD := 1; SD := 0; MC := 1; SL := 0;
                    LM := pbit p 1; LG := pbit p 0; SR := 0; EX := 0;
                    U0 := 0; SE := 0; US := 0 |})
      \/ (pbit p 4 = 1 /\ pbit p 3 = 0 /\ pbit p 2 = 0 /\ pbit p 1 = 0
          /\ pbit p 0 = 0
          /\ d = {| GL := pbit p 5; LD := 0; SD := 1; MC := 1; SL := 0;
                    LM := 0; LG := 0; SR := 0; EX := 0; U0 := 0; SE := 0;
                    US := 0 |})
      \/ (pbit p 4 = 1 /\ pbit p 3 = 0 /\ pbit p 2 = 0
          /\ (pbit p 1 = 1 \/ pbit p 0 = 1)
          /\ d = {| GL := pbit p 5; LD := pbit p 1; SD := pbit p 0; MC := 0;
                    SL := 0; LM := 0; LG := 0; SR := 0; EX := 0; U0 := 0;
                    SE := 0; US := 0 |})
      \/ (pbit p 4 = 0 /\ pbit p 3 = 1
          /\ d = {| GL := pbit p 5; LD := 1; SD := 0; MC := 1; SL := 0;
                    LM := pbit p 1; LG := pbit p 0; SR := pbit p 2; EX := 1;
                    U0 := 0; SE := 0; US := 0 |})
      \/ (pbit p 4 = 0 /\ pbit p 3 = 0 /\ d = only_GL (pbit p 5))).
Proof.
  cbn zeta. split.
  { unfold decode_perms.
    repeat match goal with
           | |- context [if ?c then _ else _] => destruct c
           end; reflexivity. }
  unfold decode_perms, only_GL.
  destruct (pbit_cases p 4) as [H4 | H4], (pbit_cases p 3) as [H3 | H3],
    (pbit_cases p 2) as [H2 | H2], (pbit_cases p 1) as [H1 | H1],
    (pbit_cases p 0) as [H0 | H0];
    rewrite H4, H3, H2, H1, H0; cbn [truthy Z.eqb negb andb];
    intuition (reflexivity || lia).
Qed.

Lemma length_pc (x : Z) (c : string) :
  String.length c = 1%nat -> String.length (pc x c) = 1%nat.
Proof. intros H. unfold pc. destruct (truthy x); [exact H | reflexivity]. Qed.

End PermissionFlags.

(** X9. Invariants of the decoded permission set, for every input: each
    flag is 0 or 1; execute never comes with store (EX excludes SD) and
    always with LD and MC; SR needs EX; SL needs LD, SD and MC; LM and LG
    need LD and MC; MC needs LD or SD. *)
Theorem X9_permission_invariants (addr meta : Z) :
  exists g : globals,
    run addr meta = Ok g
    /\ Forall (fun x => x = 0 \/ x = 1)
         [GL (g_perms g); LD (g_perms g); SD (g_perms g); MC (g_perms g);
          SL (g_perms g); LM (g_perms g); LG (g_perms g); SR (g_perms g);
          EX (g_perms g); U0 (g_perms g); SE (g_perms g); US (g_perms g)]
    /\ (EX (g_perms g) = 1 ->
        SD (g_perms g) = 0 /\ LD (g_perms g) = 1 /\ MC (g_perms g) = 1)
    /\ (SR (g_perms g) = 1 -> EX (g_perms g) = 1)
    /\ (SL (g_perms g) = 1 ->
        LD (g_perms g) = 1 /\ SD (g_perms g) = 1 /\ MC (g_perms g) = 1)
    /\ (LM (g_perms g) = 1 \/ LG (g_perms g) = 1 ->
        LD (g_perms g) = 1 /\ MC (g_perms g) = 1)
    /\ (MC (g_perms g) = 1 -> LD (g_perms g) = 1 \/ SD (g_perms g) = 1).
Proof.
  destruct (run_ok addr meta) as [b [_ Hrun]]. cbn zeta in Hrun.
  eexists. split; [exact Hrun |]. cbn [g_perms]. clear Hrun b.
  generalize (perms (extract meta)). intros p.
  pose proof (pbit_cases p 5) as H5. pose proof (pbit_cases p 2) as H2.
  pose proof (pbit_cases p 1) as H1. pose proof (pbit_cases p 0) as H0.
  destruct (decode_perms_cases p) as [_ Hc]. cbn zeta in Hc. unfold only_GL in Hc.
  destruct Hc as [(_ & _ & ->) | [(_ & _ & _ & ->) | [(_ & _ & _ & _ & _ & ->)
    | [(_ & _ & _ & _ & ->) | [(_ & _ & ->) | (_ & _ & ->)]]]]];
    cbn [GL LD SD MC SL LM LG SR EX U0 SE US];
    (split;
     [repeat (apply List.Forall_cons; [lia |]); apply List.Forall_nil | lia]).
Qed.

(** X10. Apart from the patterns with p4 = p3 = 0, the encoding loses
    nothing: two 6-bit perms values that decode to the same flags are equal
    as soon as one of them has p4 or p3 set. *)
Theorem X10_decode_perms_injective (p q : Z) :
  0 <= p < 64 -> 0 <= q < 64 ->
  pbit p 4 = 1 \/ pbit p 3 = 1 ->
  decode_perms p = decode_perms q ->
  p = q.
Proof.
  intros Hp Hq Hset Heq.
  set (flags := fun d : permset =>
                  [GL d; LD d; SD d; MC d; SL d; LM d; LG d; SR d; EX d;
                   U0 d; SE d; US d]).
  set (range := map Z.of_nat (seq 0 64)).
  assert (Hall :
    forallb (fun a =>
      forallb (fun c =>
        implb (((pbit a 4 =? 1) || (pbit a 3 =? 1))
               && bool_decide (flags (decode_perms a) = flags (decode_perms c)))
              (a =? c)) range) range = true)
    by (vm_compute; reflexivity).
  assert (Hin : forall x, 0 <= x < 64 -> In x range).
  { intros x Hx. unfold range. apply in_map_iff. exists (Z.to_nat x).
    split; [lia | apply in_seq; lia]. }
  rewrite forallb_forall in Hall. specialize (Hall p (Hin p Hp)).
  rewrite forallb_forall in Hall. specialize (Hall q (Hin q Hq)).
  rewrite Heq in Hall. rewrite bool_decide_eq_true_2 in Hall by reflexivity.
  assert (Hg : (pbit p 4 =? 1) || (pbit p 3 =? 1) = true).
  { destruct Hset as [-> | ->]; [reflexivity | apply orb_true_r]. }
  rewrite Hg in Hall. cbn [andb implb] in Hall. apply Z.eqb_eq, Hall.
Qed.

Lemma X10_decode_perms_injective_witness :
  0 <= 16 < 64 /\ 0 <= 16 < 64 /\ (pbit 16 4 = 1 \/ pbit 16 3 = 1)
  /\ decode_perms 16 = decode_perms 16 /\ 16 = 16.
Proof.
  assert (Hr : 0 <= 16 < 64) by lia.
  assert (Hb : pbit 16 4 = 1 \/ pbit 16 3 = 1) by (left; reflexivity).
  split; [exact Hr |]. split; [exact Hr |]. split; [exact Hb |].
  split; [reflexivity |].
  exact (X10_decode_perms_injective 16 16 Hr Hr Hb eq_refl).
Defined.

(** X12. The permission line has a fixed width of 14 characters, and its
    last three are always "---": with the last branch of the decoder never
    taken, S, U and 0 are never shown. *)
Theorem X12_perm_str_shape (addr meta : Z) :
  exists (g : globals) (front : string),
    run addr meta = Ok g
    /\ last (stdout g) = Some (perm_str g)
    /\ perm_str g = front +:+ " ---"
    /\ String.length front = 10%nat
    /\ String.length (perm_str g) = 14%nat.
Proof.
  destruct (run_ok addr meta) as [b [_ Hrun]]. cbn zeta in Hrun.
  pose proof (decode_perms_last_branch_dead (perms (extract meta)))
    as (HU0 & HSE & HUS).
  set (d := decode_perms (perms (extract meta))) in *.
  eexists _, (pc (GL d) "G" +:+ " " +:+ pc (LD d) "R" +:+ pc (SD d) "W"
             +:+ pc (MC d) "c" +:+ pc (LG d) "g" +:+ pc (LM d) "m" +:+ " "
             +:+ pc (EX d) "X" +:+ pc (SR d) "a").
  split; [exact Hrun |]. cbn [stdout perm_str].
  split.
  { destruct (negb (R (extract meta) =? 0)); reflexivity. }
  assert (Hshape : forall x c, pc x c = c \/ pc x c = "-").
  { intros x c. unfold pc. destruct (truthy x); auto. }
  unfold perm_str_of. rewrite HU0, HSE, HUS.
  change (pc 0 "S") with "-". change (pc 0 "U") with "-".
  change (pc 0 "0") with "-".
  destruct (Hshape (GL d) "G") as [-> | ->], (Hshape (LD d) "R") as [-> | ->],
    (Hshape (SD d) "W") as [-> | ->], (Hshape (MC d) "c") as [-> | ->],
    (Hshape (LG d) "g") as [-> | ->], (Hshape (LM d) "m") as [-> | ->],
    (Hshape (EX d) "X") as [-> | ->], (Hshape (SR d) "a") as [-> | ->];
    repeat split; reflexivity.
Qed.

Section PermsBits.

(** Bit [i] of the perms field is bit [i + 25] of the metadata word. *)
Lemma perms_bit (m i : Z) :
  0 <= i < 6 -> pbit (perms (extract m)) i = Z.b2z (Z.testbit m (i + 25)).
Proof.
  intros Hi. rewrite pbit_testbit by lia. unfold extract; cbn [perms].
  change 63 with (Z.ones 6). rewrite slice_testbit by lia.
  destruct (Z.ltb_spec i 6); [| lia]. rewrite andb_true_r. reflexivity.
Qed.

(** Two words that agree outside the perms field have the same other
    fields. *)
Lemma extract_ext_outside_perms (m m' : Z) :
  (forall i, i < 25 \/ 31 <= i -> Z.testbit m i = Z.testbit m' i) ->
  B (extract m) = B (extract m') /\ T (extract m) = T (extract m')
  /\ E (extract m) = E (extract m') /\ otype (extract m) = otype (extract m')
  /\ R (extract m) = R (extract m') /\ v (extract m) = v (extract m').
Proof.
  intros H. unfold extract; cbn [B T E otype perms R v].
  split; [| split; [| split; [| split; [| split]]]].
  - apply (slice_ext m m' 0 9); [lia |]. intros i Hi. apply H. lia.
  - apply (slice_ext m m' 9 9); [lia |]. intros i Hi. apply H. lia.
  - apply (slice_ext m m' 18 4); [lia |]. intros i Hi. apply H. lia.
  - apply (slice_ext m m' 22 3); [lia |]. intros i Hi. apply H. lia.
  - apply (slice_ext m m' 31 1); [lia |]. intros i Hi. apply H. lia.
  - apply (slice_ext m m' 32 1); [lia |]. intros i Hi. apply H. lia.
Qed.

Lemma testbit_toggle (m j i : Z) :
  0 <= j ->
  Z.testbit (Z.lxor m (Z.shiftl 1 j)) i
  = if i =? j then negb (Z.testbit m i) else Z.testbit m i.
Proof.
  intros Hj. rewrite Z.lxor_spec, Z.shiftl_1_l, Z.pow2_bits_eqb by lia.
  rewrite (Z.eqb_sym j i). destruct (i =? j).
  - apply xorb_true_r.
  - apply xorb_false_r.
Qed.

End PermsBits.

(** X11. The store-local flag SL is decoded but never printed: with
    p4 = p3 = 1, toggling p2 (bit 27 of the metadata) flips SL, and the
    permission line, the bounds line and the object-type line of the output
    stay the same; only the echo of the raw perms bits in the first line
    can tell the two inputs apart. *)
Theorem X11_store_local_not_printed (addr meta : Z) :
  pbit (perms (extract meta)) 4 = 1 ->
  pbit (perms (extract meta)) 3 = 1 ->
  exists g g' : globals,
    run addr meta = Ok g
    /\ run addr (Z.lxor meta (Z.shiftl 1 27)) = Ok g'
    /\ SL (g_perms g) = pbit (perms (extract meta)) 2
    /\ SL (g_perms g') = 1 - SL (g_perms g)
    /\ perm_str g' = perm_str g
    /\ List.tl (stdout g') = List.tl (stdout g).
Proof.
  intros H4 H3.
  set (meta' := Z.lxor meta (Z.shiftl 1 27)).
  assert (Hbit : forall i, 0 <= i < 6 ->
            pbit (perms (extract meta')) i
            = if i =? 2 then 1 - pbit (perms (extract meta)) i
              else pbit (perms (extract meta)) i).
  { intros i Hi. rewrite !perms_bit by lia. unfold meta'.
    rewrite testbit_toggle by lia.
    destruct (Z.eqb_spec i 2) as [-> | Hne].
    - change (2 + 25 =? 27) with true. cbn iota.
      destruct (Z.testbit meta (2 + 25)); reflexivity.
    - destruct (Z.eqb_spec (i + 25) 27); [lia | reflexivity]. }
  destruct (extract_ext_outside_perms meta meta')
    as (HB & HT & HE & Ho & HR & _).
  { intros i Hi. unfold meta'. rewrite testbit_toggle by lia.
    destruct (Z.eqb_spec i 27); [lia | reflexivity]. }
  pose proof (Hbit 5 ltac:(lia)) as H5'. pose proof (Hbit 4 ltac:(lia)) as H4'.
  pose proof (Hbit 3 ltac:(lia)) as H3'. pose proof (Hbit 2 ltac:(lia)) as H2'.
  pose proof (Hbit 1 ltac:(lia)) as H1'. pose proof (Hbit 0 ltac:(lia)) as H0'.
  cbn [Z.eqb Pos.eqb] in H5', H4', H3', H2', H1', H0'.
  assert (Hd : decode_perms (perms (extract meta)) =
               {| GL := pbit (perms (extract meta)) 5; LD := 1; SD := 1;
                  MC := 1; SL := pbit (perms (extract meta)) 2;
                  LM := pbit (perms (extract meta)) 1;
                  LG := pbit (perms (extract meta)) 0;
                  SR := 0; EX := 0; U0 := 0; SE := 0; US := 0 |}).
  { unfold decode_perms. rewrite H4, H3. reflexivity. }
  assert (Hd' : decode_perms (perms (extract meta')) =
               {| GL := pbit (perms (extract meta)) 5; LD := 1; SD := 1;
                  MC := 1; SL := 1 - pbit (perms (extract meta)) 2;
                  LM := pbit (perms (extract meta)) 1;
                  LG := pbit (perms (extract meta)) 0;
                  SR := 0; EX := 0; U0 := 0; SE := 0; US := 0 |}).
  { unfold decode_perms. rewrite H5', H4', H3', H2', H1', H0', H4, H3.
    reflexivity. }
  destruct (run_ok addr meta) as [b [Hb Hrun]].
  destruct (run_ok addr meta') as [b' [Hb' Hrun']].
  cbn zeta in Hb, Hrun, Hb', Hrun'.
  rewrite <- HB, <- HT, <- HE in Hb'. rewrite Hb in Hb'. apply Ok_inj in Hb'.
  subst b'.
  rewrite Hd in Hrun. rewrite Hd', <- Ho, <- HR in Hrun'.
  cbn [EX] in Hrun, Hrun'.
  eexists _, _. split; [exact Hrun |]. split; [exact Hrun' |].
  cbn [g_perms perm_str stdout SL].
  split; [reflexivity |]. split; [reflexivity |].
  split; [reflexivity |].
  destruct (negb (R (extract meta) =? 0)); reflexivity.
Qed.

Lemma X11_store_local_not_printed_witness :
  pbit (perms (extract 0x38000000)) 4 = 1
  /\ pbit (perms (extract 0x38000000)) 3 = 1
  /\ exists g g' : globals,
       run 0 0x38000000 = Ok g /\ run 0 0x30000000 = Ok g'
       /\ SL (g_perms g) = pbit (perms (extract 0x38000000)) 2
       /\ SL (g_perms g') = 1 - SL (g_perms g)
       /\ perm_str g' = perm_str g
       /\ List.tl (stdout g') = List.tl (stdout g).
Proof.
  split; [reflexivity |]. split; [reflexivity |].
  exact (X11_store_local_not_printed 0 0x38000000 eq_refl eq_refl).
Defined.

(** ** The decoded bounds *)

Section BoundsArithmetic.

Lemma mod512_sub (a b : Z) :
  0 <= b < 512 ->
  (a - b) mod 512
  = if a mod 512 <? b then a mod 512 - b + 512 else a mod 512 - b.
Proof.
  intros Hb. pose proof (Z.div_mod a 512 ltac:(lia)) as Hdm.
  pose proof (Z.mod_pos_bound a 512 ltac:(lia)) as Hr.
  destruct (Z.ltb_spec (a mod 512) b); symmetry.
  - apply (Z.mod_unique _ _ (a / 512 - 1)); lia.
  - apply (Z.mod_unique _ _ (a / 512)); lia.
Qed.

(** Base and top without the correction terms: base is the address counted
    in units of 2^e, rounded down to the nearest value that is B modulo
    512; top is base plus the distance from B up to T modulo 512. *)
Lemma run_bounds_closed_form (addr meta : Z) :
  exists g : globals,
    run addr meta = Ok g
    /\ g_fields g = extract meta
    /\ e g = exponent (E (extract meta))
    /\ 0 <= e g <= 24
    /\ base (g_bounds g)
       = (addr / 2 ^ e g - (addr / 2 ^ e g - B (extract meta)) mod 512)
         * 2 ^ e g
    /\ top (g_bounds g)
       = base (g_bounds g)
         + ((T (extract meta) - B (extract meta)) mod 512) * 2 ^ e g.
Proof.
  destruct (run_bounds addr meta) as (g & Hrun & Hf & He & Hrange & Hb).
  pose proof (extract_ranges meta) as Hr. cbn zeta in Hr.
  destruct Hr as (HB & HT & _).
  exists g. do 4 (split; [assumption |]).
  rewrite Hb. cbn zeta. cbn [base top]. clear Hb Hrun Hf He.
  generalize dependent (e g). intros ex Hex.
  generalize dependent (B (extract meta)). intros b HB.
  generalize dependent (T (extract meta)). intros t HT.
  rewrite <- (Z.shiftr_shiftr addr ex 9) by lia.
  rewrite !Z.shiftl_mul_pow2 by lia.
  rewrite (Z.shiftr_div_pow2 addr ex) by lia.
  set (A := addr / 2 ^ ex).
  rewrite (Z.shiftr_div_pow2 A 9) by lia.
  change 0x1ff with (Z.ones 9). rewrite Z.land_ones by lia.
  change (2 ^ 9) with 512.
  rewrite (mod512_sub A b HB), (mod512_sub t b HB).
  rewrite (Z.mod_small t 512) by lia.
  pose proof (Z.div_mod A 512 ltac:(lia)) as Hdm.
  pose proof (Z.mod_pos_bound A 512 ltac:(lia)) as Hmod.
  destruct (Z.ltb_spec (A mod 512) b), (Z.ltb_spec t b);
    split; f_equal; lia.
Qed.

End BoundsArithmetic.

(** X13. The address always lies in the window of 2^(e+9) that starts at
    the decoded base: base <= address < base + 2^(e+9), for every address
    and metadata word. *)
Theorem X13_address_within_window (addr meta : Z) :
  exists g : globals,
    run addr meta = Ok g
    /\ base (g_bounds g) <= addr < base (g_bounds g) + 2 ^ (e g + 9).
Proof.
  destruct (run_bounds_closed_form addr meta)
    as (g & Hrun & _ & _ & He & Hbase & _).
  exists g. split; [exact Hrun |]. rewrite Hbase. clear Hrun Hbase.
  generalize dependent (e g). intros ex Hex.
  rewrite Z.pow_add_r by lia. change (2 ^ 9) with 512.
  assert (HP : 0 < 2 ^ ex) by (apply Z.pow_pos_nonneg; lia).
  pose proof (Z.div_mod addr (2 ^ ex) ltac:(lia)) as Hdm.
  pose proof (Z.mod_pos_bound addr (2 ^ ex) HP) as Hlow.
  pose proof (Z.mod_pos_bound (addr / 2 ^ ex - B (extract meta)) 512
                ltac:(lia)) as Hm.
  set (m := (addr / 2 ^ ex - B (extract meta)) mod 512) in *.
  set (A := addr / 2 ^ ex) in *. set (P := 2 ^ ex) in *.
  nia.
Qed.

(** X14. The length is never negative: top - base is the distance from B
    up to T modulo 512, in units of 2^e, so base <= top < base + 2^(e+9)
    for every input. *)
Theorem X14_length_formula (addr meta : Z) :
  exists g : globals,
    run addr meta = Ok g
    /\ top (g_bounds g) - base (g_bounds g)
       = Z.shiftl ((T (g_fields g) - B (g_fields g)) mod 512) (e g)
    /\ 0 <= top (g_bounds g) - base (g_bounds g) < 2 ^ (e g + 9)
    /\ top (g_bounds g) - base (g_bounds g) <= 511 * 2 ^ 24.
Proof.
  destruct (run_bounds_closed_form addr meta)
    as (g & Hrun & Hf & _ & He & _ & Htop).
  exists g. split; [exact Hrun |]. rewrite Hf, Htop. clear Hrun Hf Htop.
  generalize dependent (e g). intros ex Hex.
  rewrite Z.shiftl_mul_pow2 by lia.
  pose proof (Z.mod_pos_bound (T (extract meta) - B (extract meta)) 512
                ltac:(lia)) as Hm.
  set (m := (T (extract meta) - B (extract meta)) mod 512) in *.
  rewrite Z.pow_add_r by lia. change (2 ^ 9) with 512.
  assert (HP : 0 < 2 ^ ex) by (apply Z.pow_pos_nonneg; lia).
  assert (HP24 : 2 ^ ex <= 2 ^ 24) by (apply Z.pow_le_mono_r; lia).
  set (P := 2 ^ ex) in *.
  split; [lia |]. split; nia.
Qed.

(** X15. The mantissas can be read back from the decoded bounds: bits
    e..e+8 of base are B, those of top are T, and both bounds are multiples
    of 2^e. *)
Theorem X15_mantissas_read_back (addr meta : Z) :
  exists g : globals,
    run addr meta = Ok g
    /\ Z.land (Z.shiftr (base (g_bounds g)) (e g)) 0x1ff = B (g_fields g)
    /\ Z.land (Z.shiftr (top (g_bounds g)) (e g)) 0x1ff = T (g_fields g)
    /\ base (g_bounds g) mod 2 ^ e g = 0
    /\ top (g_bounds g) mod 2 ^ e g = 0.
Proof.
  destruct (run_bounds_closed_form addr meta)
    as (g & Hrun & Hf & _ & He & Hbase & Htop).
  pose proof (extract_ranges meta) as Hr. cbn zeta in Hr.
  destruct Hr as (HB & HT & _).
  exists g. split; [exact Hrun |].
  rewrite Hf, Htop, Hbase. clear Hrun Hf Htop Hbase.
  generalize dependent (e g). intros ex Hex.
  generalize dependent (B (extract meta)). intros b HB.
  generalize dependent (T (extract meta)). intros t HT.
  assert (HP : 0 < 2 ^ ex) by (apply Z.pow_pos_nonneg; lia).
  set (A := addr / 2 ^ ex).
  rewrite <- Z.mul_add_distr_r.
  rewrite !Z.shiftr_div_pow2 by lia.
  rewrite !Z.div_mul by lia. rewrite !Z.mod_mul by lia.
  change 0x1ff with (Z.ones 9). rewrite !Z.land_ones by lia.
  change (2 ^ 9) with 512.
  rewrite (mod512_sub A b HB), (mod512_sub t b HB).
  rewrite (Z.mod_small t 512) by lia.
  pose proof (Z.div_mod A 512 ltac:(lia)) as Hdm.
  pose proof (Z.mod_pos_bound A 512 ltac:(lia)) as Hmod.
  assert (Hu : forall x q r, 0 <= r < 512 -> x = 512 * q + r ->
                 x mod 512 = r).
  { intros x q r Hr Hx. symmetry. apply (Z.mod_unique _ _ q); [left |]; assumption. }
  destruct (Z.ltb_spec (A mod 512) b), (Z.ltb_spec t b);
    (split; [| split; [| split; reflexivity]]).
  - apply (Hu _ (A / 512 - 1)); lia.
  - apply (Hu _ (A / 512)); lia.
  - apply (Hu _ (A / 512 - 1)); lia.
  - apply (Hu _ (A / 512 - 1)); lia.
  - apply (Hu _ (A / 512)); lia.
  - apply (Hu _ (A / 512 + 1)); lia.
  - apply (Hu _ (A / 512)); lia.
  - apply (Hu _ (A / 512)); lia.
Qed.

(** X16. The bounds do not depend on where in the window the address is:
    decoding the same metadata at any other address within
    [base, base + 2^(e+9)) gives the same base and top. *)
Theorem X16_bounds_stable_in_window (addr addr' meta : Z) (g : globals) :
  run addr meta = Ok g ->
  base (g_bounds g) <= addr' < base (g_bounds g) + 2 ^ (e g + 9) ->
  exists g' : globals,
    run addr' meta = Ok g'
    /\ base (g_bounds g') = base (g_bounds g)
    /\ top (g_bounds g') = top (g_bounds g).
Proof.
  intros Hg Hwin.
  destruct (run_bounds_closed_form addr meta)
    as (g0 & Hrun & _ & He & Hrange & Hbase & Htop).
  rewrite Hg in Hrun. apply Ok_inj in Hrun. subst g0. clear Hg.
  destruct (run_bounds_closed_form addr' meta)
    as (g' & Hrun' & _ & He' & _ & Hbase' & Htop').
  exists g'. split; [exact Hrun' |]. clear Hrun'.
  rewrite Htop', Htop, Hbase'. rewrite Hbase in Hwin |- *.
  rewrite He'. rewrite <- He. clear He He' Hbase Hbase' Htop Htop'.
  pose proof (extract_ranges meta) as Hr. cbn zeta in Hr.
  destruct Hr as (HB & _).
  set (ex := e g) in *. clearbody ex.
  set (b := B (extract meta)) in *. clearbody b.
  assert (HP : 0 < 2 ^ ex) by (apply Z.pow_pos_nonneg; lia).
  rewrite Z.pow_add_r in Hwin by lia. change (2 ^ 9) with 512 in Hwin.
  set (A := addr / 2 ^ ex) in *. set (A' := addr' / 2 ^ ex).
  pose proof (Z.div_mod (A - b) 512 ltac:(lia)) as Hdm.
  pose proof (Z.mod_pos_bound (A - b) 512 ltac:(lia)) as Hm.
  set (q := (A - b) / 512) in *. set (m := (A - b) mod 512) in *.
  assert (HK : A - m = b + 512 * q) by lia.
  rewrite HK in Hwin |- *.
  assert (Hlo : b + 512 * q <= A').
  { apply Z.div_le_lower_bound; [exact HP | lia]. }
  assert (Hhi : A' < b + 512 * q + 512).
  { apply Z.div_lt_upper_bound; [exact HP | lia]. }
  assert (Hm' : (A' - b) mod 512 = A' - (b + 512 * q)).
  { symmetry. apply (Z.mod_unique _ _ q); [left |]; lia. }
  rewrite Hm'. split; f_equal; lia.
Qed.

Lemma X16_bounds_stable_in_window_witness :
  exists g : globals,
    run 0x200 0x1908a0403 = Ok g
    /\ base (g_bounds g) <= 0x80b < base (g_bounds g) + 2 ^ (e g + 9)
    /\ exists g' : globals,
         run 0x80b 0x1908a0403 = Ok g'
         /\ base (g_bounds g') = base (g_bounds g)
         /\ top (g_bounds g') = top (g_bounds g).
Proof.
  assert (Hex : exists g, run 0x200 0x1908a0403 = Ok g
                          /\ base (g_bounds g) = 0xc /\ e g = 2).
  { eexists. split; [vm_compute; reflexivity | split; reflexivity]. }
  destruct Hex as (g & Hrun & Hb & He).
  assert (Hw : base (g_bounds g) <= 0x80b
               < base (g_bounds g) + 2 ^ (e g + 9)).
  { rewrite Hb, He. cbn. lia. }
  exists g. split; [exact Hrun |]. split; [exact Hw |].
  exact (X16_bounds_stable_in_window 0x200 0x80b 0x1908a0403 g Hrun Hw).
Defined.

(** X17. The encoding E = 15, B = 0, T = 0x100 spans the whole 32-bit
    address space: at every address below 2^32 it decodes to base 0 and
    top 2^32, one past the last address, printed with nine digits. *)
Theorem X17_whole_address_space (addr meta : Z) :
  E (extract meta) = 15 -> B (extract meta) = 0 ->
  T (extract meta) = 0x100 ->
  0 <= addr < 2 ^ 32 ->
  exists g : globals,
    run addr meta = Ok g
    /\ e g = 24
    /\ base (g_bounds g) = 0 /\ top (g_bounds g) = 2 ^ 32
    /\ In "00000000-100000000 l:100000000" (stdout g).
Proof.
  intros HE HB HT Haddr.
  destruct (run_bounds_closed_form addr meta)
    as (g & Hrun & _ & He & _ & Hbase & Htop).
  rewrite HE in He. change (exponent 15) with 24 in He.
  rewrite He, HB, HT in *.
  assert (HA : 0 <= addr / 2 ^ 24 < 256).
  { split; [apply Z.div_pos; lia |].
    apply Z.div_lt_upper_bound; [lia |]. change (2 ^ 24 * 256) with (2 ^ 32).
    lia. }
  rewrite Z.sub_0_r, Z.mod_small in Hbase by lia.
  rewrite Z.sub_diag in Hbase. cbn in Hbase.
  rewrite Hbase in Htop. change ((0x100 - 0) mod 512) with 256 in Htop.
  change (0 + 256 * 2 ^ 24) with (2 ^ 32) in Htop.
  exists g. split; [exact Hrun |]. do 3 (split; [assumption |]).
  destruct (run_ok addr meta) as [b [_ Hrun']]. cbn zeta in Hrun'.
  rewrite Hrun in Hrun'. apply Ok_inj in Hrun'. subst g.
  cbn [g_bounds stdout] in *.
  apply in_or_app. right. left.
  unfold bounds_line. rewrite Hbase, Htop. reflexivity.
Qed.

Lemma X17_whole_address_space_witness :
  E (extract 0x1703e0000) = 15 /\ B (extract 0x1703e0000) = 0
  /\ T (extract 0x1703e0000) = 0x100
  /\ 0 <= 0x80001234 < 2 ^ 32
  /\ exists g : globals,
       run 0x80001234 0x1703e0000 = Ok g
       /\ e g = 24
       /\ base (g_bounds g) = 0 /\ top (g_bounds g) = 2 ^ 32
       /\ In "00000000-100000000 l:100000000" (stdout g).
Proof.
  do 3 (split; [reflexivity |]).
  assert (Ha : 0 <= 0x80001234 < 2 ^ 32) by (cbn; lia).
  split; [exact Ha |].
  exact (X17_whole_address_space 0x80001234 0x1703e0000
           eq_refl eq_refl eq_refl Ha).
Defined.

(** ** The object type *)

Section ObjectType.

Lemma EX_cases (p : Z) : EX (decode_perms p) = 0 \/ EX (decode_perms p) = 1.
Proof.
  unfold decode_perms.
  repeat match goal with
         | |- context [if ?c then _ else _] => destruct c
         end; cbn [EX]; auto.
Qed.

End ObjectType.

(** X18. The classified object type lies in 0..15 and is never 8; the
    label "unsealed" is printed exactly when the otype field is 0, whatever
    the permissions; and a sealed capability without EX is classified in
    9..15 and printed as a bare number, never with a sentry label. *)
Theorem X18_object_type_ranges (addr meta : Z) :
  exists g : globals,
    run addr meta = Ok g
    /\ 0 <= g_otype g <= 15 /\ g_otype g <> 8
    /\ (otype_str g = "0 (unsealed)" <-> otype (g_fields g) = 0)
    /\ (otype (g_fields g) <> 0 -> EX (g_perms g) = 0 ->
        9 <= g_otype g /\ otype_str g = str (g_otype g)).
Proof.
  destruct (run_ok addr meta) as [b [_ Hrun]]. cbn zeta in Hrun.
  eexists. split; [exact Hrun |].
  cbn [g_otype otype_str g_fields g_perms]. clear Hrun b.
  pose proof (extract_ranges meta) as Hr. cbn zeta in Hr.
  destruct Hr as (_ & _ & _ & Ho & _).
  pose proof (EX_cases (perms (extract meta))) as Hex.
  set (o := otype (extract meta)) in *. clearbody o.
  set (x := EX (decode_perms (perms (extract meta)))) in *. clearbody x.
  assert (Hcases : o = 0 \/ o = 1 \/ o = 2 \/ o = 3 \/ o = 4 \/ o = 5
                   \/ o = 6 \/ o = 7) by lia.
  clear Ho.
  destruct Hex as [-> | ->];
    destruct Hcases as [-> | [-> | [-> | [-> | [-> | [-> | [-> | ->]]]]]]];
    vm_compute;
    (split; [split; intro; discriminate |]);
    (split; [intro; discriminate |]);
    (split; [split; intro H; first [reflexivity | discriminate H] |]);
    intros H1 H2;
    first [ exfalso; apply H1; reflexivity
          | discriminate H2
          | split; [intro; discriminate | reflexivity] ].
Qed.

(** ** annotate_trace.py *)

Section SymbolTable.

Lemma insert_by_addr_In (x y : symbol) (l : list symbol) :
  In y (insert_by_addr x l) <-> y = x \/ In y l.
Proof.
  induction l as [| z l IH]; cbn [insert_by_addr].
  - cbn. intuition.
  - destruct (fst x <? fst z)%N; cbn [In] in *; rewrite ?IH; intuition.
Qed.

Lemma insert_by_addr_sorted (x : symbol) (l : list symbol) :
  StronglySorted addr_le l -> StronglySorted addr_le (insert_by_addr x l).
Proof.
  induction l as [| z l IH]; intros Hs; cbn [insert_by_addr].
  - repeat constructor.
  - apply StronglySorted_inv in Hs as [Hl Hz].
    destruct (N.ltb_spec (fst x) (fst z)) as [Hlt | Hge].
    + constructor; [constructor; assumption |].
      constructor; [unfold addr_le; lia |].
      rewrite List.Forall_forall in Hz |- *. intros y Hy.
      specialize (Hz y Hy). unfold addr_le in *. lia.
    + constructor; [apply IH, Hl |].
      rewrite List.Forall_forall in Hz |- *. intros y Hy.
      apply insert_by_addr_In in Hy as [-> | Hy];
        [exact Hge | apply Hz, Hy].
Qed.

Lemma sort_by_addr_acc (names acc : list symbol) :
  StronglySorted addr_le acc ->
  StronglySorted addr_le
    (fold_left (fun a x => insert_by_addr x a) names acc)
  /\ forall y, In y (fold_left (fun a x => insert_by_addr x a) names acc)
               <-> In y names \/ In y acc.
Proof.
  revert acc. induction names as [| x names IH]; intros acc Hacc; cbn.
  - split; [exact Hacc | intuition].
  - destruct (IH (insert_by_addr x acc) (insert_by_addr_sorted x acc Hacc))
      as [Hs Hin].
    split; [exact Hs |]. intros y. rewrite Hin, insert_by_addr_In.
    intuition.
Qed.

Lemma sort_by_addr_sorted (names : list symbol) :
  StronglySorted addr_le (sort_by_addr names).
Proof. apply sort_by_addr_acc. constructor. Qed.

Lemma sort_by_addr_In (names : list symbol) (y : symbol) :
  In y (sort_by_addr names) <-> In y names.
Proof.
  unfold sort_by_addr.
  destruct (sort_by_addr_acc names [] (SSorted_nil _)) as [_ H].
  rewrite H. cbn. intuition.
Qed.

Lemma append_assoc (s t u : string) : (s +:+ t) +:+ u = s +:+ t +:+ u.
Proof.
  induction s as [| c s IH]; [reflexivity |].
  rewrite !append_cons, IH. reflexivity.
Qed.

Lemma strictly_sorted_snoc (l : list N) (a : N) :
  StronglySorted N.lt l -> List.Forall (fun b => (b < a)%N) l ->
  StronglySorted N.lt (l ++ [a]).
Proof.
  induction l as [| b l IH]; intros Hs Hf; cbn.
  - repeat constructor.
  - apply StronglySorted_inv in Hs as [Hl Hb].
    apply List.Forall_cons_iff in Hf as [Hba Hf].
    constructor; [apply IH; assumption |].
    apply List.Forall_app. split; [exact Hb | repeat constructor; exact Hba].
Qed.

(** The invariant of the merging loop: the entries written so far have
    strictly increasing addresses, all below the pending one, which is not
    above any entry still to come. *)
Lemma merge_loop_sorted (names : list symbol) (prev_addr : N)
    (prev_name : string) (unique_names : list symbol) :
  StronglySorted addr_le names ->
  List.Forall (fun x => (prev_addr <= fst x)%N) names ->
  StronglySorted N.lt (map fst unique_names) ->
  List.Forall (fun b => (b < prev_addr)%N) (map fst unique_names) ->
  StronglySorted N.lt
    (map fst (merge_loop names prev_addr prev_name unique_names)).
Proof.
  revert prev_addr prev_name unique_names.
  induction names as [| [addr name] rest IH];
    intros pa pn u Hs Hge Hu Hlt; cbn [merge_loop].
  - rewrite map_app. apply strictly_sorted_snoc; assumption.
  - apply StronglySorted_inv in Hs as [Hrest Hhd].
    apply List.Forall_cons_iff in Hge as [Hpa Hge]. cbn [fst] in Hpa.
    destruct (N.eqb_spec addr pa) as [-> | Hne]; cbn [negb].
    + apply IH; assumption.
    + apply IH.
      * exact Hrest.
      * exact Hhd.
      * rewrite map_app. apply strictly_sorted_snoc; assumption.
      * rewrite map_app. apply List.Forall_app. split.
        -- eapply List.Forall_impl; [| exact Hlt]. cbn. intros b Hb. lia.
        -- repeat constructor. cbn. lia.
Qed.

(** The entries written so far stay in front, followed by the pending
    entry under a name that extends the pending name. *)
Lemma merge_loop_front (names : list symbol) (prev_addr : N)
    (prev_name : string) (unique_names : list symbol) :
  exists (more : string) (tl : list symbol),
    merge_loop names prev_addr prev_name unique_names
    = (unique_names ++ (prev_addr, prev_name +:+ more) :: tl)%list.
Proof.
  revert prev_addr prev_name unique_names.
  induction names as [| [addr name] rest IH]; intros pa pn u;
    cbn [merge_loop].
  - exists "", []. rewrite append_empty_r. reflexivity.
  - destruct (negb (addr =? pa)%N).
    + destruct (IH addr name (u ++ [(pa, pn)])%list) as (more & tl & ->).
      exists "", ((addr, name +:+ more) :: tl).
      rewrite append_empty_r, <- app_assoc. reflexivity.
    + destruct (IH pa (pn +:+ "/" +:+ name) u) as (more & tl & ->).
      exists ("/" +:+ name +:+ more), tl.
      rewrite !append_assoc. reflexivity.
Qed.

(** The addresses of the result are the pending address, those written
    already and those of the entries to come. *)
Lemma merge_loop_addresses (names : list symbol) (prev_addr : N)
    (prev_name : string) (unique_names : list symbol) (a : N) :
  In a (map fst (merge_loop names prev_addr prev_name unique_names))
  <-> a = prev_addr \/ In a (map fst unique_names) \/ In a (map fst names).
Proof.
  revert prev_addr prev_name unique_names.
  induction names as [| [addr name] rest IH]; intros pa pn u;
    cbn [merge_loop].
  - rewrite map_app, in_app_iff. cbn. intuition.
  - destruct (N.eqb_spec addr pa) as [-> | Hne]; cbn [negb];
      rewrite IH; [| rewrite map_app, in_app_iff]; cbn; intuition.
Qed.

End SymbolTable.

Lemma get_names_shape (names : list symbol) :
  StronglySorted N.lt (map fst (get_names names))
  /\ exists (more : string) (tl : list symbol),
       get_names names = (0%N, "null" +:+ more) :: tl.
Proof.
  unfold get_names. split.
  - apply merge_loop_sorted.
    + apply sort_by_addr_sorted.
    + apply List.Forall_forall. intros x _. lia.
    + constructor.
    + constructor.
  - destruct (merge_loop_front (sort_by_addr names) 0%N "null" [])
      as (more & tl & H).
    exists more, tl. exact H.
Qed.

(** X19. Whatever the nm file holds, the table that [get_names] returns
    starts with an entry at address 0 whose name starts with "null", and
    its addresses are strictly increasing: no address is listed twice. *)
Theorem X19_get_names_strictly_sorted (names : list symbol) :
  StronglySorted N.lt (map fst (get_names names))
  /\ exists (more : string) (tl : list symbol),
       get_names names = (0%N, "null" +:+ more) :: tl.
Proof. apply get_names_shape. Qed.

(** X20. Merging loses no address and invents none: the addresses of the
    table are exactly 0 and the addresses of the parsed entries. *)
Theorem X20_get_names_addresses (names : list symbol) (a : N) :
  In a (map fst (get_names names)) <-> a = 0%N \/ In a (map fst names).
Proof.
  unfold get_names. rewrite merge_loop_addresses. cbn [map In].
  assert (H : In a (map fst (sort_by_addr names)) <-> In a (map fst names)).
  { rewrite !in_map_iff. split; intros (x & Hx & Hin); exists x;
      (split; [exact Hx |]); apply sort_by_addr_In; exact Hin. }
  rewrite H. intuition.
Qed.

Section Bisect.

Lemma sorted_nth (a : list N) :
  StronglySorted N.le a ->
  forall i j, (i <= j < length a)%nat -> (nth i a 0 <= nth j a 0)%N.
Proof.
  induction 1 as [| b a Hs IH Hb]; intros i j Hij; cbn [length] in Hij.
  - lia.
  - destruct i as [| i], j as [| j]; cbn [nth]; try lia.
    + rewrite List.Forall_forall in Hb. apply Hb, nth_In. lia.
    + apply IH. lia.
Qed.

Lemma half_between (lo hi : nat) :
  (lo < hi)%nat -> (lo <= (lo + hi) / 2 < hi)%nat.
Proof.
  intros H. pose proof (Nat.div_mod_eq (lo + hi) 2) as Hd.
  pose proof (Nat.mod_upper_bound (lo + hi) 2 ltac:(lia)) as Hm. lia.
Qed.

Lemma bisect_loop_spec (a : list N) (x : N) :
  StronglySorted N.le a ->
  forall (fuel lo hi : nat),
    (hi - lo <= fuel)%nat -> (lo <= hi <= length a)%nat ->
    (forall i, (i < lo)%nat -> (nth i a 0 <= x)%N) ->
    (forall i, (hi <= i < length a)%nat -> (x < nth i a 0)%N) ->
    (lo <= bisect_loop fuel a x lo hi <= hi)%nat
    /\ (forall i, (i < bisect_loop fuel a x lo hi)%nat -> (nth i a 0 <= x)%N)
    /\ (forall i, (bisect_loop fuel a x lo hi <= i < length a)%nat ->
                  (x < nth i a 0)%N).
Proof.
  intros Hs. induction fuel as [| fuel IH]; intros lo hi Hf Hb Hlo Hhi;
    cbn [bisect_loop].
  - assert (lo = hi) by lia. subst hi. repeat split; try lia; assumption.
  - destruct (Nat.ltb_spec lo hi) as [Hlt | Hge].
    + pose proof (half_between lo hi Hlt) as Hmid.
      set (mid := ((lo + hi) / 2)%nat) in *.
      destruct (N.ltb_spec x (nth mid a 0%N)) as [Hx | Hx].
      * destruct (IH lo mid) as (Hr & Hl & Hh); try lia; try assumption.
        { intros i Hi. pose proof (sorted_nth a Hs mid i ltac:(lia)). lia. }
        repeat split; try lia; assumption.
      * destruct (IH (mid + 1)%nat hi) as (Hr & Hl & Hh); try lia;
          try assumption.
        { intros i Hi. pose proof (sorted_nth a Hs i mid ltac:(lia)). lia. }
        repeat split; try lia; assumption.
    + assert (lo = hi) by lia. subst hi. repeat split; try lia; assumption.
Qed.

Lemma strictly_sorted_le (a : list N) :
  StronglySorted N.lt a -> StronglySorted N.le a.
Proof.
  induction 1 as [| b a Hs IH Hb]; constructor; [exact IH |].
  eapply List.Forall_impl; [| exact Hb]. cbn. intros c Hc. lia.
Qed.

Lemma bisect_right_sorted (a : list N) (x : N) :
  StronglySorted N.le a ->
  (bisect_right a x <= length a)%nat
  /\ (forall i, (i < bisect_right a x)%nat -> (nth i a 0 <= x)%N)
  /\ (forall i, (bisect_right a x <= i < length a)%nat -> (x < nth i a 0)%N).
Proof.
  intros Hs. unfold bisect_right.
  destruct (bisect_loop_spec a x Hs (length a) 0%nat (length a))
    as (Hr & Hl & Hh); try lia.
  repeat split; try lia; assumption.
Qed.

End Bisect.

Section Lookup.

Lemma filter_strictly_sorted (f : symbol -> bool) (t : list symbol) :
  StronglySorted N.lt (map fst t) ->
  StronglySorted N.lt (map fst (List.filter f t)).
Proof.
  induction t as [| x t IH]; intros Hs; cbn [List.filter map] in *.
  - constructor.
  - apply StronglySorted_inv in Hs as [Ht Hx].
    destruct (f x); cbn [map]; [| apply IH, Ht].
    constructor; [apply IH, Ht |].
    rewrite List.Forall_forall in Hx |- *. intros b Hb. apply Hx.
    apply in_map_iff in Hb as (y & <- & Hy).
    apply List.filter_In in Hy as [Hy _]. apply in_map, Hy.
Qed.

(** The lookup of lines 61-62 in a table with strictly increasing addresses
    that starts at address 0. *)
Lemma floor_lookup (t : list symbol) (pc : N) :
  StronglySorted N.lt (map fst t) ->
  (exists s tl, t = (0%N, s) :: tl) ->
  exists (a : N) (s : string),
    floor_entry t pc a s
    /\ item (map snd t) (Z.of_nat (bisect_right (map fst t) pc) - 1) = Done s.
Proof.
  intros Hs (s0 & tl & Ht).
  destruct (bisect_right_sorted (map fst t) pc (strictly_sorted_le _ Hs))
    as (Hr & Hl & Hh).
  set (r := bisect_right (map fst t) pc) in *.
  rewrite length_map in Hr, Hh.
  assert (Hlen : (0 < length t)%nat) by (rewrite Ht; cbn; lia).
  assert (Hr1 : (1 <= r)%nat).
  { destruct (Nat.eq_dec r 0%nat) as [H0 | H0]; [| lia]. exfalso.
    pose proof (Hh 0%nat) as Hx. rewrite H0 in Hx.
    specialize (Hx (conj (le_n 0%nat) Hlen)). rewrite Ht in Hx.
    cbn [map nth fst] in Hx. exact (N.nlt_0_r pc Hx). }
  remember (r - 1)%nat as i eqn:Hi.
  set (d := (0%N, "") : symbol).
  assert (Hnth : forall j, nth j (map fst t) 0%N = fst (nth j t d)).
  { intros j. change 0%N with (fst d). apply map_nth. }
  exists (fst (nth i t d)), (snd (nth i t d)). split.
  - unfold floor_entry. split; [| split].
    + rewrite <- surjective_pairing. apply nth_In. lia.
    + rewrite <- Hnth. apply Hl. lia.
    + intros x Hx Hle. destruct (In_nth t x d Hx) as (j & Hj & Hjx).
      destruct (Nat.lt_ge_cases j r) as [Hjr | Hjr].
      * rewrite <- Hjx, <- !Hnth.
        apply (sorted_nth _ (strictly_sorted_le _ Hs)).
        rewrite length_map. lia.
      * specialize (Hh j ltac:(lia)). rewrite Hnth, Hjx in Hh. lia.
  - unfold item. rewrite length_map.
    destruct (Z.ltb_spec (Z.of_nat r - 1) 0) as [Hneg | _]; [lia |].
    destruct (Z.ltb_spec (Z.of_nat r - 1) 0) as [Hneg | _]; [lia |].
    replace (Z.to_nat (Z.of_nat r - 1)) with i by lia.
    rewrite (nth_error_nth' (map snd t) (snd d)) by (rewrite length_map; lia).
    rewrite map_nth. reflexivity.
Qed.

End Lookup.

(** X21. The lookup never fails on a table made by [get_names], for any nm
    file and any program counter: the entry at address 0 keeps both
    searches from landing before the first element.  The annotation is the
    name at the greatest address not above the program counter, preceded by
    the like name among those not starting with a dot when the two
    differ. *)
Theorem X21_symbol_at_get_names (names : list symbol) (pc : N) :
  exists (a a' : N) (sym non_local_sym : string),
    floor_entry (get_names names) pc a sym
    /\ floor_entry (non_local (get_names names)) pc a' non_local_sym
    /\ symbol_at (get_names names) pc
       = Done (if negb (String.eqb non_local_sym sym)
               then non_local_sym +:+ " / " +:+ sym
               else sym).
Proof.
  destruct (get_names_shape names) as [Hs (more & tl & Ht)].
  set (t := get_names names) in *.
  assert (Hnl : exists s tl', non_local t = (0%N, s) :: tl').
  { rewrite Ht. unfold non_local. cbn [List.filter snd].
    change (starts_with_dot ("null" +:+ more)) with false. cbn [negb].
    eauto. }
  destruct (floor_lookup t pc Hs (ex_intro _ _ (ex_intro _ _ Ht)))
    as (a & sym & Hfl & Hitem).
  destruct (floor_lookup (non_local t) pc
              (filter_strictly_sorted _ t Hs) Hnl)
    as (a' & nl & Hfl' & Hitem').
  exists a, a', sym, nl. split; [exact Hfl |]. split; [exact Hfl' |].
  unfold symbol_at. fold (non_local t).
  destruct Hnl as (s' & tl' & Hnl).
  assert (Hu : unzip t = Done (map fst t, map snd t)) by (rewrite Ht; reflexivity).
  assert (Hu' : unzip (non_local t)
                = Done (map fst (non_local t), map snd (non_local t)))
    by (rewrite Hnl; reflexivity).
  rewrite Hu, Hu', Hitem, Hitem'. reflexivity.
Qed.

(** ** cgviz.py *)

Section CgvizStrings.

Lemma length_str_take (n : nat) (s : string) :
  String.length (str_take n s) = Nat.min n (String.length s).
Proof.
  revert s. induction n as [| n IH]; intros s; [reflexivity |].
  destruct s as [| c s]; [reflexivity |].
  cbn [str_take String.length]. rewrite IH. reflexivity.
Qed.

Lemma str_take_take (n m : nat) (s : string) :
  (n <= m)%nat -> str_take n (str_take m s) = str_take n s.
Proof.
  revert m s. induction n as [| n IH]; intros m s H; [reflexivity |].
  destruct m as [| m]; [lia |]. destruct s as [| c s]; [reflexivity |].
  cbn [str_take]. rewrite IH by lia. reflexivity.
Qed.

Lemma str_take_append (n : nat) (s t : string) :
  (n <= String.length s)%nat -> str_take n (s +:+ t) = str_take n s.
Proof.
  revert s. induction n as [| n IH]; intros s H; [reflexivity |].
  destruct s as [| c s]; [cbn in H; lia |].
  rewrite append_cons. cbn [str_take]. cbn [String.length] in H.
  rewrite IH by lia. reflexivity.
Qed.

Lemma has_char_replace_other (d c : ascii) (by_ s : string) :
  has_char d by_ = false ->
  has_char d s = false \/ d = c ->
  has_char d (replace_char c by_ s) = false.
Proof.
  intros Hby. induction s as [| x s IH]; intros H; [reflexivity |].
  cbn [replace_char]. destruct (Ascii.eqb_spec x c) as [-> | Hne].
  - rewrite has_char_append, Hby. cbn [orb]. apply IH.
    destruct H as [H | H]; [| right; exact H].
    cbn [has_char] in H. apply orb_false_iff in H as [_ H]. left; exact H.
  - cbn [has_char]. destruct H as [H | ->].
    + cbn [has_char] in H. apply orb_false_iff in H as [Hx H].
      rewrite Hx. cbn [orb]. apply IH. left; exact H.
    + destruct (Ascii.eqb_spec x c) as [-> | _]; [contradiction |].
      cbn [orb]. apply IH. right; reflexivity.
Qed.

Lemma replace_char_absent (c : ascii) (by_ s : string) :
  has_char c s = false -> replace_char c by_ s = s.
Proof.
  induction s as [| x s IH]; intros H; [reflexivity |].
  cbn [has_char] in H. apply orb_false_iff in H as [Hx H].
  cbn [replace_char]. rewrite Hx, (IH H). reflexivity.
Qed.

End CgvizStrings.

(** X22. The port name made from an export symbol holds no "$" and no ".",
    whatever the symbol; a symbol that has neither is left as it is. *)
Theorem X22_escape_export_symbol_clean (s : string) :
  has_char "$" (escape_export_symbol s) = false
  /\ has_char "." (escape_export_symbol s) = false
  /\ (has_char "$" s = false -> has_char "." s = false ->
      escape_export_symbol s = s).
Proof.
  unfold escape_export_symbol. split; [| split].
  - apply has_char_replace_other; [reflexivity |]. left.
    apply has_char_replace_other; [reflexivity |]. right; reflexivity.
  - apply has_char_replace_other; [reflexivity |]. right; reflexivity.
  - intros Hd Hp. rewrite (replace_char_absent "$" "DOLLAR" s Hd).
    apply replace_char_absent, Hp.
Qed.

Lemma X22_escape_export_symbol_clean_witness :
  has_char "$" "__export_alloc" = false
  /\ has_char "." "__export_alloc" = false
  /\ escape_export_symbol "__export_alloc" = "__export_alloc".
Proof.
  split; [reflexivity |]. split; [reflexivity |].
  exact (proj2 (proj2 (X22_escape_export_symbol_clean "__export_alloc"))
           eq_refl eq_refl).
Defined.

(** X23. [abbreviate] with a length of 3 or more never returns more than
    [length] characters: a shorter string is returned as it is, any other
    is cut to [length - 3] characters followed by "...", exactly [length]
    in all; and abbreviating twice changes nothing more. *)
Theorem X23_abbreviate_bound (s : string) (n : Z) :
  3 <= n ->
  (Z.of_nat (String.length s) < n -> abbreviate s n = s)
  /\ (n <= Z.of_nat (String.length s) ->
      abbreviate s n = str_take (Z.to_nat (n - 3)) s +:+ "..."
      /\ Z.of_nat (String.length (abbreviate s n)) = n)
  /\ Z.of_nat (String.length (abbreviate s n))
     = Z.min (Z.of_nat (String.length s)) n
  /\ abbreviate (abbreviate s n) n = abbreviate s n.
Proof.
  intros Hn.
  assert (Hshort : Z.of_nat (String.length s) < n -> abbreviate s n = s).
  { intros H. unfold abbreviate.
    destruct (Z.ltb_spec (Z.of_nat (String.length s)) n); [reflexivity | lia]. }
  assert (Hlong : n <= Z.of_nat (String.length s) ->
            abbreviate s n = str_take (Z.to_nat (n - 3)) s +:+ "..."
            /\ Z.of_nat (String.length (abbreviate s n)) = n).
  { intros H. unfold abbreviate, slice_to.
    destruct (Z.ltb_spec (Z.of_nat (String.length s)) n); [lia |].
    destruct (Z.ltb_spec (n - 3) 0); [lia |].
    rewrite Z.min_l by lia. split; [reflexivity |].
    rewrite length_append, length_str_take. cbn [String.length]. lia. }
  split; [exact Hshort |]. split; [exact Hlong |].
  destruct (Z.lt_ge_cases (Z.of_nat (String.length s)) n) as [Hlt | Hge].
  - rewrite !(Hshort Hlt). split; [lia | reflexivity].
  - destruct (Hlong Hge) as [Heq Hlen]. split; [lia |].
    unfold abbreviate at 1. rewrite Hlen, Z.ltb_irrefl.
    unfold slice_to. rewrite Hlen.
    destruct (Z.ltb_spec (n - 3) 0); [lia |].
    rewrite Z.min_l by lia. rewrite Heq.
    rewrite str_take_append by (rewrite length_str_take; lia).
    rewrite str_take_take by lia. reflexivity.
Qed.

Lemma X23_abbreviate_bound_witness :
  3 <= 10
  /\ abbreviate "compartment_switcher" 10 = "compart..."
  /\ abbreviate (abbreviate "compartment_switcher" 10) 10
     = abbreviate "compartment_switcher" 10.
Proof.
  split; [lia |]. split; [reflexivity |].
  apply (X23_abbreviate_bound "compartment_switcher" 10). lia.
Defined.

(** X24. With a length below 3 the cut index [length - 3] is negative and
    counts from the end of the string: a string of three characters or
    more loses only its last [3 - length] characters before "..." is added,
    and comes out [length] characters longer than it was. *)
Theorem X24_abbreviate_short_length (s : string) (n : Z) :
  0 <= n < 3 -> (3 <= String.length s)%nat ->
  abbreviate s n
  = str_take (String.length s - Z.to_nat (3 - n)) s +:+ "..."
  /\ Z.of_nat (String.length (abbreviate s n))
     = Z.of_nat (String.length s) + n.
Proof.
  intros Hn Hs. unfold abbreviate, slice_to.
  destruct (Z.ltb_spec (Z.of_nat (String.length s)) n); [lia |].
  destruct (Z.ltb_spec (n - 3) 0); [| lia].
  replace (Z.to_nat (Z.max 0 (Z.of_nat (String.length s) + (n - 3))))
    with (String.length s - Z.to_nat (3 - n))%nat by lia.
  split; [reflexivity |].
  rewrite length_append, length_str_take. cbn [String.length]. lia.
Qed.

Lemma X24_abbreviate_short_length_witness :
  0 <= 2 < 3 /\ (3 <= String.length "abcdef")%nat
  /\ abbreviate "abcdef" 2 = "abcde...".
Proof.
  split; [lia |]. split; [cbn; lia |].
  refine (eq_trans (proj1 (X24_abbreviate_short_length "abcdef" 2 _ _)) _).
  - lia.
  - cbn; lia.
  - reflexivity.
Defined.

Section NoMerge.

Lemma insert_by_addr_perm (x : symbol) (l : list symbol) :
  Permutation (insert_by_addr x l) (x :: l).
Proof.
  induction l as [| y l IH]; cbn [insert_by_addr]; [reflexivity |].
  destruct (fst x <? fst y)%N; [reflexivity |].
  rewrite IH. apply perm_swap.
Qed.

Lemma sort_by_addr_perm_acc (names acc : list symbol) :
  Permutation (fold_left (fun a x => insert_by_addr x a) names acc)
    (names ++ acc).
Proof.
  revert acc. induction names as [| x names IH]; intros acc; cbn;
    [reflexivity |].
  rewrite IH, insert_by_addr_perm. symmetry. apply Permutation_middle.
Qed.

Lemma sort_by_addr_perm (names : list symbol) :
  Permutation (sort_by_addr names) names.
Proof.
  unfold sort_by_addr. rewrite sort_by_addr_perm_acc, app_nil_r. reflexivity.
Qed.

Lemma sorted_nodup_strict (l : list symbol) :
  StronglySorted addr_le l -> List.NoDup (map fst l) ->
  StronglySorted N.lt (map fst l).
Proof.
  induction 1 as [| x l Hs IH Hx]; intros Hnd; cbn [map] in *;
    [constructor |].
  apply List.NoDup_cons_iff in Hnd as [Hnin Hnd].
  constructor; [apply IH, Hnd |].
  apply List.Forall_forall. intros b Hb.
  apply in_map_iff in Hb as (y & <- & Hy).
  rewrite List.Forall_forall in Hx. specialize (Hx y Hy).
  unfold addr_le in Hx.
  assert (fst x <> fst y).
  { intros Heq. apply Hnin. rewrite Heq. apply in_map, Hy. }
  lia.
Qed.

(** With strictly increasing addresses above the pending one, the loop
    writes the pending entry and then every entry unchanged. *)
Lemma merge_loop_distinct (names : list symbol) (prev_addr : N)
    (prev_name : string) (unique_names : list symbol) :
  StronglySorted N.lt (map fst names) ->
  List.Forall (fun x => (prev_addr < fst x)%N) names ->
  merge_loop names prev_addr prev_name unique_names
  = (unique_names ++ (prev_addr, prev_name) :: names)%list.
Proof.
  revert prev_addr prev_name unique_names.
  induction names as [| [addr name] rest IH]; intros pa pn u Hs Hlt;
    cbn [merge_loop]; [reflexivity |].
  cbn [map] in Hs. apply StronglySorted_inv in Hs as [Hrest Hhd].
  apply List.Forall_cons_iff in Hlt as [Hpa _]. cbn [fst] in Hpa, Hhd.
  destruct (N.eqb_spec addr pa) as [-> | _]; [lia |]. cbn [negb].
  rewrite IH.
  - rewrite <- app_assoc. reflexivity.
  - exact Hrest.
  - apply List.Forall_forall. intros y Hy.
    rewrite List.Forall_forall in Hhd. apply Hhd, in_map, Hy.
Qed.

End NoMerge.

(** X25. When the nm file lists no address twice and nothing at address 0,
    nothing is merged: the table is the entry [(0, "null")] followed by the
    parsed entries in address order, each under its own name. *)
Theorem X25_get_names_without_duplicates (names : list symbol) :
  List.NoDup (map fst names) ->
  ~ In 0%N (map fst names) ->
  get_names names = (0%N, "null") :: sort_by_addr names
  /\ Permutation (sort_by_addr names) names
  /\ StronglySorted N.lt (map fst (sort_by_addr names)).
Proof.
  intros Hnd Hz.
  pose proof (sort_by_addr_perm names) as Hp.
  assert (Hs : StronglySorted N.lt (map fst (sort_by_addr names))).
  { apply sorted_nodup_strict; [apply sort_by_addr_sorted |].
    eapply Permutation_NoDup; [| exact Hnd].
    apply Permutation_map. symmetry. exact Hp. }
  split; [| split; assumption].
  unfold get_names. rewrite merge_loop_distinct; [reflexivity | exact Hs |].
  apply List.Forall_forall. intros y Hy.
  assert (fst y <> 0%N).
  { intros H0. apply Hz. rewrite <- H0. apply in_map.
    apply sort_by_addr_In, Hy. }
  lia.
Qed.

Lemma X25_get_names_without_duplicates_witness :
  List.NoDup (map fst [(0x20%N, "main"); (0x10%N, ".Lstart")])
  /\ ~ In 0%N (map fst [(0x20%N, "main"); (0x10%N, ".Lstart")])
  /\ get_names [(0x20%N, "main"); (0x10%N, ".Lstart")]
     = [(0%N, "null"); (0x10%N, ".Lstart"); (0x20%N, "main")].
Proof.
  assert (Hnd : List.NoDup (map fst [(0x20%N, "main"); (0x10%N, ".Lstart")])).
  { cbn. repeat constructor; cbn; intuition discriminate. }
  assert (Hz : ~ In 0%N (map fst [(0x20%N, "main"); (0x10%N, ".Lstart")])).
  { cbn. intuition discriminate. }
  split; [exact Hnd |]. split; [exact Hz |].
  exact (proj1 (X25_get_names_without_duplicates _ Hnd Hz)).
Defined.

Example symbol_at_example :
  symbol_at (get_names [(0x20%N, "main"); (0x10%N, ".Lstart");
                        (0x20%N, "_start"); (0x30%N, ".Lloop")]) 0x34%N
  = Done "main/_start / .Lloop".
Proof. reflexivity. Qed.
